(** * FlashFix: schema, row-level security and client state controller

    A shallow embedding of the Supabase SQL script (tables, constraints,
    policies, the two admin procedures) and of the state handlers of
    [App.tsx], with the properties of the specification proved over it.

    Modelling conventions.
    - A table with a PRIMARY KEY is a finite map from the key to the rest
      of the row; every other column holds an SQL value, that is an
      [option] whose [None] is NULL.
    - SQL conditions are three-valued ([Sql.tv]); a WHERE clause, a policy
      and EXISTS keep a row only when the condition is TRUE, a CHECK
      constraint rejects a row only when the condition is FALSE.
    - [NUMERIC(2,1)] is a fixed-point number with one decimal digit; a
      stored rating is the integer number of tenths.
    - Policy expressions read the tables they name. The sub-select on
      [profiles] is restricted to [id = auth.uid()], the caller's own row,
      which the policy on own profiles shows to every caller; how the
      engine expands a policy of [profiles] that itself reads [profiles]
      is outside this model. *)

From stdpp Require Import base option list gmap strings fin_maps.
From Stdlib Require Import ZArith.

Local Open Scope string_scope.
Local Open Scope Z_scope.

Abbreviation uuid := string.
Abbreviation text := string.

(** ** SQL three-valued logic *)

Module Sql.

(** [None] is NULL (unknown). *)
Definition tv := option bool.

Definition TRUE : tv := Some true.
Definition FALSE : tv := Some false.
Definition UNKNOWN : tv := None.

Definition and (a b : tv) : tv :=
  match a, b with
  | Some false, _ | _, Some false => FALSE
  | Some true, Some true => TRUE
  | _, _ => UNKNOWN
  end.

Definition or (a b : tv) : tv :=
  match a, b with
  | Some true, _ | _, Some true => TRUE
  | Some false, Some false => FALSE
  | _, _ => UNKNOWN
  end.

(** [a = b] on nullable values. *)
Definition eq {A} `{EqDecision A} (a b : option A) : tv :=
  match a, b with
  | Some x, Some y => Some (bool_decide (x = y))
  | _, _ => UNKNOWN
  end.

(** [a <= b] on nullable integers. *)
Definition le (a b : option Z) : tv :=
  match a, b with
  | Some x, Some y => Some (bool_decide (x <= y))
  | _, _ => UNKNOWN
  end.

(** [a IN (v1, ..., vn)], also for the rows of a sub-select. *)
Definition in_ {A} `{EqDecision A} (a : option A) (l : list (option A)) : tv :=
  foldr (fun v acc => or (eq a v) acc) FALSE l.

(** A row qualifies (WHERE, USING, WITH CHECK, EXISTS) when the
    condition is TRUE. *)
Definition qual (c : tv) : bool :=
  match c with Some true => true | _ => false end.

(** A CHECK constraint is violated only when the condition is FALSE. *)
Definition check_ok (c : tv) : bool :=
  match c with Some false => false | _ => true end.

End Sql.

(** ** Tables *)

(** [auth.users] belongs to the hosting service; the procedures of the
    script read these columns of it. Its [id] is the key. *)
Module users.
Record row := {
  email : option text;
  created_at : option Z
}.
End users.

Module profiles.
(** [id UUID PRIMARY KEY] is the key of the table. *)
Record row := { role : option text }.
End profiles.

Module contractors.
(** [id BIGINT PRIMARY KEY GENERATED ALWAYS AS IDENTITY] is the key. *)
Record row := {
  user_id : option uuid;
  name : option text;
  specialty : option text;
  rating : option Z;          (* NUMERIC(2,1), in tenths *)
  avatar : option text;
  created_at : option Z
}.

Definition set_user_id (v : option uuid) (r : row) : row :=
  {| user_id := v; name := name r; specialty := specialty r;
     rating := rating r; avatar := avatar r; created_at := created_at r |}.
End contractors.

Module jobs.
(** [id BIGINT PRIMARY KEY GENERATED ALWAYS AS IDENTITY] is the key. *)
Record row := {
  unit : option text;
  client_name : option text;
  client_email : option text;
  address : option text;
  service_type : option text;
  service_date : option Z;
  lockbox : option text;
  status : option text;
  checklist_notes : option text;
  created_at : option Z;
  contractor_id : option Z
}.

Definition set_contractor_id (v : option Z) (r : row) : row :=
  {| unit := unit r; client_name := client_name r;
     client_email := client_email r; address := address r;
     service_type := service_type r; service_date := service_date r;
     lockbox := lockbox r; status := status r;
     checklist_notes := checklist_notes r; created_at := created_at r;
     contractor_id := v |}.

Definition set_status (v : option text) (r : row) : row :=
  {| unit := unit r; client_name := client_name r;
     client_email := client_email r; address := address r;
     service_type := service_type r; service_date := service_date r;
     lockbox := lockbox r; status := v;
     checklist_notes := checklist_notes r; created_at := created_at r;
     contractor_id := contractor_id r |}.
End jobs.

(** The database: the three tables of the script, [auth.users], and the
    two identity sequences. *)
Record db := {
  auth_users : gmap uuid users.row;
  tbl_profiles : gmap uuid profiles.row;
  tbl_contractors : gmap Z contractors.row;
  tbl_jobs : gmap Z jobs.row;
  contractors_id_seq : Z;
  jobs_id_seq : Z
}.

Definition with_auth_users (v : gmap uuid users.row) (d : db) : db :=
  {| auth_users := v; tbl_profiles := tbl_profiles d;
     tbl_contractors := tbl_contractors d; tbl_jobs := tbl_jobs d;
     contractors_id_seq := contractors_id_seq d; jobs_id_seq := jobs_id_seq d |}.

Definition with_profiles (v : gmap uuid profiles.row) (d : db) : db :=
  {| auth_users := auth_users d; tbl_profiles := v;
     tbl_contractors := tbl_contractors d; tbl_jobs := tbl_jobs d;
     contractors_id_seq := contractors_id_seq d; jobs_id_seq := jobs_id_seq d |}.

Definition with_contractors (v : gmap Z contractors.row) (d : db) : db :=
  {| auth_users := auth_users d; tbl_profiles := tbl_profiles d;
     tbl_contractors := v; tbl_jobs := tbl_jobs d;
     contractors_id_seq := contractors_id_seq d; jobs_id_seq := jobs_id_seq d |}.

Definition with_jobs (v : gmap Z jobs.row) (d : db) : db :=
  {| auth_users := auth_users d; tbl_profiles := tbl_profiles d;
     tbl_contractors := tbl_contractors d; tbl_jobs := v;
     contractors_id_seq := contractors_id_seq d; jobs_id_seq := jobs_id_seq d |}.

(** ** Statements: state and error *)

Inductive sql_error :=
  | not_null_violation (column : string)
  | check_violation (constraint : string)
  | numeric_value_out_of_range
  | unique_violation (constraint : string)
  | foreign_key_violation (constraint : string)
  | insufficient_privilege (table : string)
  | raise_exception (message : string).

(** A statement runs on a database and either returns a value or fails;
    in both cases it hands on the database it reached. A statement that
    fails before it writes therefore leaves the database as it found it. *)
Definition stmt (A : Type) : Type := db -> (sql_error + A) * db.

#[global] Instance stmt_ret : MRet stmt := fun A a d => (inr a, d).

#[global] Instance stmt_bind : MBind stmt := fun A B f m d =>
  match m d with
  | (inl e, d') => (inl e, d')
  | (inr a, d') => f a d'
  end.

Definition raise {A} (e : sql_error) : stmt A := fun d => (inl e, d).
Definition get : stmt db := fun d => (inr d, d).
Definition modify (f : db -> db) : stmt () := fun d => (inr tt, f d).

(** [IF NOT ok THEN fail END IF]. *)
Definition require (ok : bool) (e : sql_error) : stmt () :=
  if ok then mret tt else raise e.

Definition succeeded {A} (r : (sql_error + A) * db) : bool :=
  match r.1 with inr _ => true | inl _ => false end.

(** ** Constraints of the three tables *)

(** [CHECK (role IN ('pm', 'contractor', 'admin'))]. *)
Definition profiles_role_check (r : profiles.row) : Sql.tv :=
  Sql.in_ (profiles.role r) [Some "pm"; Some "contractor"; Some "admin"].

(** [CHECK (rating >= 0 AND rating <= 5)], on tenths. *)
Definition contractors_rating_check (r : contractors.row) : Sql.tv :=
  Sql.and (Sql.le (Some 0) (contractors.rating r))
          (Sql.le (contractors.rating r) (Some 50)).

(** The values of [NUMERIC(2,1)]: two digits, one of them decimal. *)
Definition numeric_2_1 (v : option Z) : bool :=
  match v with
  | Some x => bool_decide (-99 <= x <= 99)
  | None => true
  end.

(** [CHECK (status IN ('Pending', 'In Progress', 'Completed'))]. *)
Definition jobs_status_check (r : jobs.row) : Sql.tv :=
  Sql.in_ (jobs.status r) [Some "Pending"; Some "In Progress"; Some "Completed"].

Definition not_null {A} (v : option A) (column : string) : stmt () :=
  require (bool_decide (is_Some v)) (not_null_violation column).

(** Column types, NOT NULL and CHECK constraints of a row. *)
Definition profiles_row_constraints (r : profiles.row) : stmt () :=
  not_null (profiles.role r) "role";;
  require (Sql.check_ok (profiles_role_check r)) (check_violation "profiles_role_check").

Definition contractors_row_constraints (r : contractors.row) : stmt () :=
  require (numeric_2_1 (contractors.rating r)) numeric_value_out_of_range;;
  not_null (contractors.name r) "name";;
  require (Sql.check_ok (contractors_rating_check r))
          (check_violation "contractors_rating_check").

Definition jobs_row_constraints (r : jobs.row) : stmt () :=
  not_null (jobs.unit r) "unit";;
  not_null (jobs.client_name r) "client_name";;
  not_null (jobs.address r) "address";;
  not_null (jobs.service_type r) "service_type";;
  not_null (jobs.service_date r) "service_date";;
  not_null (jobs.status r) "status";;
  require (Sql.check_ok (jobs_status_check r)) (check_violation "jobs_status_check").

(** A nullable reference is satisfied by NULL or by a key of the target. *)
Definition references {K V} `{Countable K} (v : option K) (target : gmap K V) : bool :=
  match v with
  | Some k => bool_decide (is_Some (target !! k))
  | None => true
  end.

(** [user_id UUID UNIQUE]: no two rows share a non-null [user_id]. *)
Definition contractors_user_id_key (t : gmap Z contractors.row) : bool :=
  bool_decide (NoDup (omap (fun kr => contractors.user_id kr.2) (map_to_list t))).

(** Every row of a table passes a per-row statement. *)
Fixpoint for_each {A} (f : A -> stmt ()) (l : list A) : stmt () :=
  match l with
  | [] => mret tt
  | x :: l' => f x;; for_each f l'
  end.

(** ** Data manipulation at the storage layer

    These are the statements as the tables accept them, whoever issues
    them: row-level security is added on top further down. *)

Definition nextval_contractors : stmt Z := fun d =>
  (inr (contractors_id_seq d),
   {| auth_users := auth_users d; tbl_profiles := tbl_profiles d;
      tbl_contractors := tbl_contractors d; tbl_jobs := tbl_jobs d;
      contractors_id_seq := contractors_id_seq d + 1;
      jobs_id_seq := jobs_id_seq d |}).

Definition nextval_jobs : stmt Z := fun d =>
  (inr (jobs_id_seq d),
   {| auth_users := auth_users d; tbl_profiles := tbl_profiles d;
      tbl_contractors := tbl_contractors d; tbl_jobs := tbl_jobs d;
      contractors_id_seq := contractors_id_seq d;
      jobs_id_seq := jobs_id_seq d + 1 |}).

(** [INSERT INTO public.profiles (id, role) VALUES (id, role)]. *)
Definition insert_profiles (id : option uuid) (r : profiles.row) : stmt () :=
  match id with
  | None => raise (not_null_violation "id")
  | Some k =>
      profiles_row_constraints r;;
      d ← get;
      require (bool_decide (tbl_profiles d !! k = None)) (unique_violation "profiles_pkey");;
      require (references (Some k) (auth_users d)) (foreign_key_violation "profiles_id_fkey");;
      modify (fun d => with_profiles (<[k:=r]> (tbl_profiles d)) d)
  end.

(** [INSERT INTO public.contractors (...) VALUES (...)]; returns the
    generated id. *)
Definition insert_contractors (r : contractors.row) : stmt Z :=
  k ← nextval_contractors;
  contractors_row_constraints r;;
  d ← get;
  require (bool_decide (tbl_contractors d !! k = None)) (unique_violation "contractors_pkey");;
  require (contractors_user_id_key (<[k:=r]> (tbl_contractors d)))
          (unique_violation "contractors_user_id_key");;
  require (references (contractors.user_id r) (auth_users d))
          (foreign_key_violation "contractors_user_id_fkey");;
  modify (fun d => with_contractors (<[k:=r]> (tbl_contractors d)) d);;
  mret k.

(** [INSERT INTO public.jobs (...) VALUES (...)]; an omitted [status]
    has been filled with its default before this point. *)
Definition jobs_status_default : option text := Some "Pending".

Definition insert_jobs (r : jobs.row) : stmt Z :=
  k ← nextval_jobs;
  jobs_row_constraints r;;
  d ← get;
  require (bool_decide (tbl_jobs d !! k = None)) (unique_violation "jobs_pkey");;
  require (references (jobs.contractor_id r) (tbl_contractors d))
          (foreign_key_violation "jobs_contractor_id_fkey");;
  modify (fun d => with_jobs (<[k:=r]> (tbl_jobs d)) d);;
  mret k.

(** [UPDATE t SET ... WHERE cond]: the rows that qualify are replaced by
    [set row]; every new row must pass the constraints. The key columns
    are not assigned ([GENERATED ALWAYS] forbids it on the two identity
    columns). *)
Definition updated {K V} `{Countable K}
    (where_ : K -> V -> Sql.tv) (set : V -> V) (t : gmap K V) : gmap K V :=
  map_imap (fun k r => Some (if Sql.qual (where_ k r) then set r else r)) t.



Definition update_jobs (where_ : Z -> jobs.row -> Sql.tv)
    (set : jobs.row -> jobs.row) : stmt () :=
  d ← get;
  for_each (fun kr => if Sql.qual (where_ kr.1 kr.2)
                      then jobs_row_constraints (set kr.2);;
                           require (references (jobs.contractor_id (set kr.2)) (tbl_contractors d))
                                   (foreign_key_violation "jobs_contractor_id_fkey")
                      else mret tt)
           (map_to_list (tbl_jobs d));;
  modify (fun d => with_jobs (updated where_ set (tbl_jobs d)) d).

(** [DELETE FROM t WHERE cond]: the rows that qualify, and what is left. *)
Definition qualifying {K V} `{Countable K} (where_ : K -> V -> Sql.tv) (t : gmap K V) : gmap K V :=
  filter (fun kr => Sql.qual (where_ kr.1 kr.2) = true) t.

Definition remaining {K V} `{Countable K} (where_ : K -> V -> Sql.tv) (t : gmap K V) : gmap K V :=
  filter (fun kr => Sql.qual (where_ kr.1 kr.2) = false) t.

(** The referential action of
    [user_id UUID UNIQUE REFERENCES auth.users(id) ON DELETE SET NULL]. *)
Definition contractors_on_delete_users (gone : gmap uuid users.row)
    (r : contractors.row) : contractors.row :=
  match contractors.user_id r with
  | Some u => if bool_decide (is_Some (gone !! u))
              then contractors.set_user_id None r else r
  | None => r
  end.

(** The referential action of
    [contractor_id BIGINT REFERENCES public.contractors(id) ON DELETE SET NULL]. *)
Definition jobs_on_delete_contractors (gone : gmap Z contractors.row)
    (r : jobs.row) : jobs.row :=
  match jobs.contractor_id r with
  | Some c => if bool_decide (is_Some (gone !! c))
              then jobs.set_contractor_id None r else r
  | None => r
  end.

(** [DELETE FROM auth.users WHERE cond]. [profiles.id] is declared
    [ON DELETE CASCADE], [contractors.user_id] [ON DELETE SET NULL]. *)
Definition delete_users (where_ : uuid -> users.row -> Sql.tv) : stmt () :=
  modify (fun d =>
    let gone := qualifying where_ (auth_users d) in
    {| auth_users := remaining where_ (auth_users d);
       tbl_profiles := filter (fun kr => gone !! kr.1 = None) (tbl_profiles d);
       tbl_contractors := contractors_on_delete_users gone <$> tbl_contractors d;
       tbl_jobs := tbl_jobs d;
       contractors_id_seq := contractors_id_seq d;
       jobs_id_seq := jobs_id_seq d |}).

(** [DELETE FROM public.contractors WHERE cond]. *)
Definition delete_contractors (where_ : Z -> contractors.row -> Sql.tv) : stmt () :=
  modify (fun d =>
    let gone := qualifying where_ (tbl_contractors d) in
    with_jobs (jobs_on_delete_contractors gone <$> tbl_jobs d)
      (with_contractors (remaining where_ (tbl_contractors d)) d)).

(** [DELETE FROM public.profiles WHERE cond] and
    [DELETE FROM public.jobs WHERE cond]: nothing references them. *)
Definition delete_profiles (where_ : uuid -> profiles.row -> Sql.tv) : stmt () :=
  modify (fun d => with_profiles (remaining where_ (tbl_profiles d)) d).

Definition delete_jobs (where_ : Z -> jobs.row -> Sql.tv) : stmt () :=
  modify (fun d => with_jobs (remaining where_ (tbl_jobs d)) d).

(** ** Row-level security *)

(** Who issues a request: the anonymous role, or the role [authenticated]
    with the identity of its token. *)
Inductive caller :=
  | anon
  | authenticated (uid : uuid).

(** [auth.uid()]. *)
Definition auth_uid (who : caller) : option uuid :=
  match who with
  | anon => None
  | authenticated u => Some u
  end.

Inductive command := SELECT | INSERT | UPDATE | DELETE.

#[global] Instance command_eq_dec : EqDecision command.
Proof. solve_decision. Defined.

Inductive for_clause := FOR_ALL | FOR (c : command).
Inductive to_clause := TO_PUBLIC | TO_authenticated.

(** A policy expression sees the database, the caller and the row. *)
Definition expr (K R : Type) : Type := db -> caller -> K -> R -> Sql.tv.

Record policy (K R : Type) := {
  pol_name : string;
  pol_for : for_clause;
  pol_to : to_clause;
  pol_using : option (expr K R);
  pol_with_check : option (expr K R)
}.
Arguments pol_name {K R} _.
Arguments pol_for {K R} _.
Arguments pol_to {K R} _.
Arguments pol_using {K R} _.
Arguments pol_with_check {K R} _.

Section Policies.
Context {K R : Type}.

(** The policy is declared for the command and for the caller's role. *)
Definition applies (p : policy K R) (c : command) (who : caller) : bool :=
  match pol_for p with
  | FOR_ALL => true
  | FOR c' => bool_decide (c' = c)
  end
  &&
  match pol_to p, who with
  | TO_PUBLIC, _ => true
  | TO_authenticated, authenticated _ => true
  | TO_authenticated, anon => false
  end.

(** USING is evaluated on existing rows. Only a policy FOR INSERT has
    none, and it applies to no existing row. *)
Definition using_passes (p : policy K R) (d : db) (who : caller) (k : K) (r : R) : bool :=
  match pol_using p with
  | Some e => Sql.qual (e d who k r)
  | None => false
  end.

(** WITH CHECK is evaluated on new rows; a policy that declares none
    checks them against its USING expression. *)
Definition with_check_passes (p : policy K R) (d : db) (who : caller) (k : K) (r : R) : bool :=
  match pol_with_check p with
  | Some e => Sql.qual (e d who k r)
  | None => using_passes p d who k r
  end.

(** The policies of a table are permissive: one that applies and passes
    is enough, and with row-level security enabled nothing is granted
    without one. *)
Definition grants_existing (ps : list (policy K R)) (c : command)
    (d : db) (who : caller) (k : K) (r : R) : bool :=
  existsb (fun p => applies p c who && using_passes p d who k r) ps.

Definition grants_new (ps : list (policy K R)) (c : command)
    (d : db) (who : caller) (k : K) (r : R) : bool :=
  existsb (fun p => applies p c who && with_check_passes p d who k r) ps.

(** What each command needs: SELECT and DELETE an existing row that
    passes, INSERT a new row that passes, UPDATE both. *)
Definition can_select ps d who k r : bool := grants_existing ps SELECT d who k r.
Definition can_delete ps d who k r : bool := grants_existing ps DELETE d who k r.
Definition can_insert ps d who k r : bool := grants_new ps INSERT d who k r.
Definition can_update_row ps d who k r : bool := grants_existing ps UPDATE d who k r.
Definition can_update ps d who k (old new : R) : bool :=
  grants_existing ps UPDATE d who k old && grants_new ps UPDATE d who k new.
End Policies.

(** The rows of a table that a SELECT of the caller returns. *)
Definition visible {K R} `{Countable K} (ps : list (policy K R))
    (d : db) (who : caller) (t : gmap K R) : gmap K R :=
  filter (fun kr => can_select ps d who kr.1 kr.2 = true) t.

(** A scalar sub-select: the value of its only row, NULL without a row.
    (More than one row is an error; the sub-selects below filter on a
    primary key.) *)
Definition scalar {A} (rows : list (option A)) : option A :=
  match rows with
  | [v] => v
  | _ => None
  end.

(** [(SELECT role FROM public.profiles WHERE id = auth.uid())]. *)
Definition caller_role (d : db) (who : caller) : option text :=
  scalar ((fun kr => profiles.role kr.2) <$>
          map_to_list (qualifying (fun id _ => Sql.eq (Some id) (auth_uid who))
                                  (tbl_profiles d))).

(** [(SELECT role FROM public.profiles WHERE id = auth.uid()) = 'r']. *)
Definition role_is {K R} (r : text) : expr K R :=
  fun d who _ _ => Sql.eq (caller_role d who) (Some r).

(** *** Policies on [profiles] *)
Definition profiles_policies : list (policy uuid profiles.row) := [
  {| pol_name := "Allow admin full access on profiles";
     pol_for := FOR_ALL; pol_to := TO_PUBLIC;
     pol_using := Some (role_is "admin"); pol_with_check := None |};
  {| pol_name := "Allow users to view their own profile";
     pol_for := FOR SELECT; pol_to := TO_PUBLIC;
     pol_using := Some (fun _ who id _ => Sql.eq (auth_uid who) (Some id));
     pol_with_check := None |}
].

(** *** Policies on [contractors] *)
Definition contractors_policies : list (policy Z contractors.row) := [
  {| pol_name := "Allow admin full access on contractors";
     pol_for := FOR_ALL; pol_to := TO_PUBLIC;
     pol_using := Some (role_is "admin"); pol_with_check := None |};
  {| pol_name := "Allow authenticated users to read contractors";
     pol_for := FOR SELECT; pol_to := TO_authenticated;
     pol_using := Some (fun _ _ _ _ => Sql.TRUE); pol_with_check := None |};
  {| pol_name := "Allow PMs to create/update contractors";
     pol_for := FOR_ALL; pol_to := TO_PUBLIC;
     pol_using := Some (role_is "pm"); pol_with_check := None |}
].

(** *** Policies on [jobs] *)

(** [(SELECT id FROM public.contractors WHERE user_id = auth.uid())],
    over the contractors the caller may read. *)
Definition own_contractor_ids (d : db) (who : caller) : list (option Z) :=
  (fun kr => Some kr.1) <$>
  map_to_list (qualifying (fun _ c => Sql.eq (contractors.user_id c) (auth_uid who))
                          (visible contractors_policies d who (tbl_contractors d))).

(** [role = 'contractor' AND contractor_id IN (SELECT id ...)]. *)
Definition assigned_contractor : expr Z jobs.row :=
  fun d who id j =>
    Sql.and (role_is "contractor" d who id j)
            (Sql.in_ (jobs.contractor_id j) (own_contractor_ids d who)).

Definition jobs_policies : list (policy Z jobs.row) := [
  {| pol_name := "Allow admin full access on jobs";
     pol_for := FOR_ALL; pol_to := TO_PUBLIC;
     pol_using := Some (role_is "admin"); pol_with_check := None |};
  {| pol_name := "Allow PMs to read all jobs";
     pol_for := FOR SELECT; pol_to := TO_PUBLIC;
     pol_using := Some (role_is "pm"); pol_with_check := None |};
  {| pol_name := "Allow assigned contractors to read their jobs";
     pol_for := FOR SELECT; pol_to := TO_PUBLIC;
     pol_using := Some assigned_contractor; pol_with_check := None |};
  {| pol_name := "Allow PMs to create jobs";
     pol_for := FOR INSERT; pol_to := TO_PUBLIC;
     pol_using := None; pol_with_check := Some (role_is "pm") |};
  {| pol_name := "Allow PMs to update jobs";
     pol_for := FOR UPDATE; pol_to := TO_PUBLIC;
     pol_using := Some (role_is "pm"); pol_with_check := None |};
  {| pol_name := "Allow assigned contractors to update their job status";
     pol_for := FOR UPDATE; pol_to := TO_PUBLIC;
     pol_using := Some assigned_contractor; pol_with_check := None |}
].

(** ** The admin procedures

    Both are SECURITY DEFINER: their statements run with the owner's
    rights, so the tables are read and written past row-level security. *)

(** [EXISTS (SELECT 1 FROM public.profiles p
             WHERE p.id = auth.uid() AND p.role = 'admin')]. *)
Definition caller_is_admin (d : db) (who : caller) : bool :=
  match map_to_list
          (qualifying (fun id p => Sql.and (Sql.eq (Some id) (auth_uid who))
                                           (Sql.eq (profiles.role p) (Some "admin")))
                      (tbl_profiles d)) with
  | [] => false
  | _ :: _ => true
  end.

(** A row of [RETURNS TABLE (id uuid, email text, role text,
    created_at timestamptz)]. *)
Record managed_user := {
  mu_id : uuid;
  mu_email : option text;
  mu_role : option text;
  mu_created_at : option Z
}.

(** [SELECT u.id, u.email, p.role, u.created_at
     FROM auth.users u JOIN public.profiles p ON u.id = p.id]. *)
Definition users_join_profiles (d : db) : list managed_user :=
  u ← map_to_list (auth_users d);
  p ← map_to_list (tbl_profiles d);
  if Sql.qual (Sql.eq (Some u.1) (Some p.1))
  then [ {| mu_id := u.1; mu_email := users.email u.2;
            mu_role := profiles.role p.2; mu_created_at := users.created_at u.2 |} ]
  else [].

Definition get_all_users (who : caller) : stmt (list managed_user) :=
  d ← get;
  require (caller_is_admin d who) (raise_exception "Only admins can view all users");;
  d ← get;
  mret (users_join_profiles d).

Definition delete_user (who : caller) (user_id : option uuid) : stmt () :=
  d ← get;
  require (caller_is_admin d who) (raise_exception "Only admins can delete users");;
  delete_users (fun id _ => Sql.eq (Some id) user_id).

(** ** The state controller of [App.tsx] *)

Module App.

(** ['Pending' | 'Completed' | 'In Progress']. *)
Inductive Status := Pending | Completed | InProgress.

(** A field declared [f?: T | null]: absent, null, or a value. *)
Inductive nullable (A : Type) :=
  | undefined
  | null
  | value (a : A).
Arguments undefined {A}.
Arguments null {A}.
Arguments value {A} _.

Module Job.
Record t := {
  id : Z;
  unit : string;
  client_name : string;
  client_email : string;
  address : string;
  service_type : string;
  service_date : string;
  lockbox : string;
  status : Status;
  checklist_notes : option string;
  created_at : option string;
  contractor_id : nullable Z;
  contractor_name : nullable string
}.
End Job.

Module Contractor.
Record t := {
  id : Z;
  name : string;
  specialty : string;
  rating : Z;                (* in tenths, as stored *)
  avatar : string
}.
End Contractor.

(** [{ ...job, contractor_id: cid, contractor_name: cname, status: 'In Progress' }]. *)
Definition assigned (cid : Z) (cname : string) (job : Job.t) : Job.t :=
  {| Job.id := Job.id job; Job.unit := Job.unit job;
     Job.client_name := Job.client_name job;
     Job.client_email := Job.client_email job;
     Job.address := Job.address job;
     Job.service_type := Job.service_type job;
     Job.service_date := Job.service_date job;
     Job.lockbox := Job.lockbox job;
     Job.status := InProgress;
     Job.checklist_notes := Job.checklist_notes job;
     Job.created_at := Job.created_at job;
     Job.contractor_id := value cid;
     Job.contractor_name := value cname |}.

(** [{ ...job, status }]. *)
Definition with_status (status : Status) (job : Job.t) : Job.t :=
  {| Job.id := Job.id job; Job.unit := Job.unit job;
     Job.client_name := Job.client_name job;
     Job.client_email := Job.client_email job;
     Job.address := Job.address job;
     Job.service_type := Job.service_type job;
     Job.service_date := Job.service_date job;
     Job.lockbox := Job.lockbox job;
     Job.status := status;
     Job.checklist_notes := Job.checklist_notes job;
     Job.created_at := Job.created_at job;
     Job.contractor_id := Job.contractor_id job;
     Job.contractor_name := Job.contractor_name job |}.

(** [newJob.contractor_name = v]. *)
Definition with_contractor_name (v : nullable string) (job : Job.t) : Job.t :=
  {| Job.id := Job.id job; Job.unit := Job.unit job;
     Job.client_name := Job.client_name job;
     Job.client_email := Job.client_email job;
     Job.address := Job.address job;
     Job.service_type := Job.service_type job;
     Job.service_date := Job.service_date job;
     Job.lockbox := Job.lockbox job;
     Job.status := Job.status job;
     Job.checklist_notes := Job.checklist_notes job;
     Job.created_at := Job.created_at job;
     Job.contractor_id := Job.contractor_id job;
     Job.contractor_name := v |}.

(** The [contractors] member of a row of
    [select('*, contractors(name)')]: an array, an object or null. *)
Inductive embedded :=
  | embedded_array (l : list string)
  | embedded_object (name : string)
  | embedded_null.

(** A fetched row: the columns of the job and the embedded member. *)
Record fetched_job := {
  columns : Job.t;
  contractors_member : embedded
}.

(** The body of [data.map(job => ...)] in [fetchJobs]. The empty string
    is falsy, so [contractors[0]?.name || null] turns it into null. *)
Definition processJob (job : fetched_job) : Job.t :=
  match contractors_member job with
  | embedded_array l =>
      with_contractor_name
        match l with
        | name :: _ => if bool_decide (name = "") then null else value name
        | [] => null
        end
        (columns job)
  | embedded_object name => with_contractor_name (value name) (columns job)
  | embedded_null => columns job
  end.

(** [{ data, error }], as the client library resolves a request. *)
Abbreviation PostgrestError := string.

Record response (A : Type) := {
  data : option A;
  error : option PostgrestError
}.
Arguments data {A} _.
Arguments error {A} _.

(** The argument of [.update(...)]: the columns it assigns. *)
Record patch := {
  patch_contractor_id : option Z;
  patch_status : option Status
}.

(** The requests the handlers send, indexed by what they resolve to. *)
Inductive request : Type -> Type :=
  (* from('jobs').select('*, contractors(name)')
       .order('service_date', { ascending: false }) *)
  | from_jobs_select : request (response (list fetched_job))
  (* from('contractors').select('*').order('name', { ascending: true }) *)
  | from_contractors_select : request (response (list Contractor.t))
  (* from('jobs').update(p).eq('id', id) *)
  | from_jobs_update (p : patch) (id : Z) : request (response ()).

(** An async function, as the steps it takes: state updates, console
    output, and requests whose result it awaits. A call that is not
    awaited ([fetchJobs()] in the handlers) is the tail of its caller,
    which does nothing after it. *)
Inductive task : Type :=
  | done
  | setJobs (f : list Job.t -> list Job.t) (k : task)
  | setContractors (f : list Contractor.t -> list Contractor.t) (k : task)
  | console_error (message : string) (e : PostgrestError) (k : task)
  | await {R : Type} (q : request R) (k : R -> task).

Definition fetchJobs : task :=
  await from_jobs_select (fun r =>
    match error r with
    | Some e => console_error "Error fetching jobs:" e (setJobs (fun _ => []) done)
    | None =>
        match data r with
        | Some rows => setJobs (fun _ => processJob <$> rows) done
        | None => done
        end
    end).

Definition fetchContractors : task :=
  await from_contractors_select (fun r =>
    match error r with
    | Some e => console_error "Error fetching contractors:" e
                  (setContractors (fun _ => []) done)
    | None =>
        match data r with
        | Some rows => setContractors (fun _ => rows) done
        | None => done
        end
    end).

(** [contractors] is the list of the render the handler closes over. *)
Definition handleAssignJob (contractors : list Contractor.t)
    (jobId contractorId : Z) : task :=
  match List.find (fun c => Contractor.id c =? contractorId) contractors with
  | None => done
  | Some contractor =>
      setJobs (fun prevJobs =>
                 (fun job => if Job.id job =? jobId
                             then assigned contractorId (Contractor.name contractor) job
                             else job) <$> prevJobs)
        (await (from_jobs_update {| patch_contractor_id := Some contractorId;
                                    patch_status := Some InProgress |} jobId)
           (fun r =>
              match error r with
              | Some e => console_error "Failed to assign job:" e fetchJobs
              | None => done
              end))
  end.

Definition handleUpdateJobStatus (jobId : Z) (status : Status) : task :=
  setJobs (fun prevJobs =>
             (fun job => if Job.id job =? jobId then with_status status job else job)
               <$> prevJobs)
    (await (from_jobs_update {| patch_contractor_id := None;
                                patch_status := Some status |} jobId)
       (fun r =>
          match error r with
          | Some e => console_error "Failed to update job status:" e fetchJobs
          | None => done
          end)).

(** *** Running a task *)

Record state := {
  jobs : list Job.t;
  contractors : list Contractor.t
}.

(** What a run leaves behind besides the state. *)
Inductive event :=
  | issued {R : Type} (q : request R)
  | logged (message : string) (e : PostgrestError).

(** The backend, as seen from the client: what the [n]-th request of a
    run resolves to. *)
Definition backend : Type := forall R, nat -> request R -> R.

Fixpoint run (srv : backend) (t : task) (n : nat) (s : state) : state * list event :=
  match t with
  | done => (s, [])
  | setJobs f k =>
      run srv k n {| jobs := f (jobs s); contractors := contractors s |}
  | setContractors f k =>
      run srv k n {| jobs := jobs s; contractors := f (contractors s) |}
  | console_error m e k =>
      let r := run srv k n s in (r.1, logged m e :: r.2)
  | await q k =>
      let r := run srv (k (srv _ n q)) (S n) s in (r.1, issued q :: r.2)
  end.

(** The synchronous part of a task: its steps up to the first request,
    and the task that is left waiting. *)
Fixpoint before_await (t : task) (s : state) : state * task :=
  match t with
  | setJobs f k =>
      before_await k {| jobs := f (jobs s); contractors := contractors s |}
  | setContractors f k =>
      before_await k {| jobs := jobs s; contractors := f (contractors s) |}
  | console_error _ _ k => before_await k s
  | done | await _ _ => (s, t)
  end.

(** The number of requests in what a run leaves behind. *)
Definition requests_sent (trace : list event) : nat :=
  length (List.filter (fun ev => match ev with issued _ => true | logged _ _ => false end)
                      trace).

(** What [fetchJobs] makes of the job list, given the answer. *)
Definition fetched_jobs (r : response (list fetched_job)) (cached : list Job.t)
    : list Job.t :=
  match error r, data r with
  | Some _, _ => []
  | None, Some rows => processJob <$> rows
  | None, None => cached
  end.

(** A backend on which every request fails. *)
Definition failing_backend : backend := fun R _ q =>
  match q in request T return T with
  | from_jobs_select => {| data := None; error := Some "network" |}
  | from_contractors_select => {| data := None; error := Some "network" |}
  | from_jobs_update _ _ => {| data := None; error := Some "network" |}
  end.

(** A backend that refuses updates and answers the job query with
    [rows]. *)
Definition refusing_backend (rows : list fetched_job) : backend := fun R _ q =>
  match q in request T return T with
  | from_jobs_select => {| data := Some rows; error := None |}
  | from_contractors_select => {| data := Some []; error := None |}
  | from_jobs_update _ _ => {| data := None; error := Some "denied" |}
  end.

Definition sample_job (id : Z) (unit : string) : Job.t :=
  {| Job.id := id; Job.unit := unit; Job.client_name := "Client";
     Job.client_email := "client@example.com"; Job.address := "1 Main St";
     Job.service_type := "Turnover"; Job.service_date := "2025-01-01";
     Job.lockbox := "0000"; Job.status := Pending;
     Job.checklist_notes := None; Job.created_at := None;
     Job.contractor_id := null; Job.contractor_name := undefined |}.

Definition sample_contractor (id : Z) (name : string) : Contractor.t :=
  {| Contractor.id := id; Contractor.name := name;
     Contractor.specialty := "Deep Cleaning"; Contractor.rating := 49;
     Contractor.avatar := "C" |}.

Definition sample_state : state :=
  {| jobs := [sample_job 7 "A1"; sample_job 8 "B2"];
     contractors := [sample_contractor 1 "Mike's Maintenance";
                     sample_contractor 2 "Cleaning Crew Co."] |}.

End App.

(** ** Requests under row-level security *)


(** ** Outcomes of statements *)


(** The statement only checks: on every database it either passes or
    fails, and writes nothing. *)
Definition check_only (m : stmt ()) : Prop :=
  forall d, m d = (inr tt, d) \/ exists e, m d = (inl e, d).

(** ** A small database

    The three contractors the script inserts, the first of them linked
    to an identity, four identities (one of them still without profile),
    and three jobs. *)

Module Sample.

Definition mikes : contractors.row :=
  {| contractors.user_id := Some "u-mike"; contractors.name := Some "Mike's Maintenance";
     contractors.specialty := Some "General Repair"; contractors.rating := Some 48;
     contractors.avatar := Some "M"; contractors.created_at := Some 0 |}.

Definition cleaning_crew : contractors.row :=
  {| contractors.user_id := None; contractors.name := Some "Cleaning Crew Co.";
     contractors.specialty := Some "Deep Cleaning"; contractors.rating := Some 49;
     contractors.avatar := Some "C"; contractors.created_at := Some 0 |}.

Definition sparkle : contractors.row :=
  {| contractors.user_id := Some "u-sparkle"; contractors.name := Some "Sparkle & Shine";
     contractors.specialty := Some "Standard Cleaning"; contractors.rating := Some 47;
     contractors.avatar := Some "S"; contractors.created_at := Some 0 |}.

Definition job (unit : text) (contractor_id : option Z) (status : text) : jobs.row :=
  {| jobs.unit := Some unit; jobs.client_name := Some "Client";
     jobs.client_email := None; jobs.address := Some "1 Main St";
     jobs.service_type := Some "Turnover"; jobs.service_date := Some 20000;
     jobs.lockbox := None; jobs.status := Some status;
     jobs.checklist_notes := None; jobs.created_at := Some 0;
     jobs.contractor_id := contractor_id |}.

Definition user (email : text) : users.row :=
  {| users.email := Some email; users.created_at := Some 0 |}.

Definition database : db :=
  {| auth_users := {[ "u-admin" := user "admin@example.com";
                      "u-pm" := user "pm@example.com";
                      "u-mike" := user "mike@example.com";
                      "u-sparkle" := user "sparkle@example.com";
                      "u-new" := user "new@example.com" ]};
     tbl_profiles := {[ "u-admin" := {| profiles.role := Some "admin" |};
                        "u-pm" := {| profiles.role := Some "pm" |};
                        "u-mike" := {| profiles.role := Some "contractor" |};
                        "u-sparkle" := {| profiles.role := Some "contractor" |} ]};
     tbl_contractors := {[ 1 := mikes; 2 := cleaning_crew; 3 := sparkle ]};
     tbl_jobs := {[ 1 := job "A1" (Some 1) "In Progress";
                    2 := job "B2" (Some 2) "In Progress";
                    3 := job "C3" None "Pending" ]};
     contractors_id_seq := 4;
     jobs_id_seq := 4 |}.

End Sample.

(** ** Sign-up *)

(** A statement and the triggers it fires are one unit: when one of them
    fails, what the statement had written is undone. *)
Definition atomic {A} (m : stmt A) : stmt A := fun d =>
  match m d with
  | (inl e, _) => (inl e, d)
  | (inr a, d') => (inr a, d')
  end.

(** [public.handle_new_user()], given [new.id] and
    [new.raw_user_meta_data->>'role'] of the inserted identity (NULL when
    the metadata has no role). SECURITY DEFINER: its INSERT goes past
    row-level security. *)
Definition handle_new_user (new_id : uuid) (new_role : option text) : stmt () :=
  insert_profiles (Some new_id) {| profiles.role := new_role |}.

(** [INSERT INTO auth.users], on which the trigger [on_auth_user_created]
    runs [handle_new_user] AFTER INSERT, FOR EACH ROW. *)
Definition insert_users (id : uuid) (r : users.row) (meta_role : option text) : stmt () :=
  atomic (d ← get;
          require (bool_decide (auth_users d !! id = None)) (unique_violation "users_pkey");;
          modify (fun d => with_auth_users (<[id:=r]> (auth_users d)) d);;
          handle_new_user id meta_role).

(** ** Updates under row-level security *)

(** [UPDATE public.jobs SET ... WHERE cond] as issued by a caller. It
    touches the rows that qualify and that the SELECT policies (the WHERE
    clause reads the row) and the UPDATE policies pass; rows that do not
    pass are skipped without error. Every new row has to pass the checks
    of the same policies, or the statement fails. *)
Definition update_jobs_as (who : caller) (where_ : Z -> jobs.row -> Sql.tv)
    (set : jobs.row -> jobs.row) : stmt () :=
  d ← get;
  let target := fun id r =>
    Sql.and (where_ id r)
            (Some (can_select jobs_policies d who id r
                   && can_update_row jobs_policies d who id r)) in
  for_each (fun kr => if Sql.qual (target kr.1 kr.2)
                      then require (grants_new jobs_policies UPDATE d who kr.1 (set kr.2)
                                    && grants_new jobs_policies SELECT d who kr.1 (set kr.2))
                                   (insufficient_privilege "jobs")
                      else mret tt)
           (map_to_list (tbl_jobs d));;
  update_jobs target set.

(** ** Consistency of a database *)

Definition profiles_row_ok (r : profiles.row) : Prop :=
  profiles.role r ∈ [Some "pm"; Some "contractor"; Some "admin"].

Definition contractors_row_ok (r : contractors.row) : Prop :=
  is_Some (contractors.name r) /\
  match contractors.rating r with
  | Some x => 0 <= x <= 50
  | None => True
  end.

Definition jobs_row_ok (r : jobs.row) : Prop :=
  is_Some (jobs.unit r) /\ is_Some (jobs.client_name r) /\
  is_Some (jobs.address r) /\ is_Some (jobs.service_type r) /\
  is_Some (jobs.service_date r) /\
  jobs.status r ∈ [Some "Pending"; Some "In Progress"; Some "Completed"].

(** What the declarations of the script promise about the stored rows:
    the column constraints, the three foreign keys, the unique link from
    contractors to identities, and identity columns below their
    sequences. *)
Record consistent (d : db) : Prop := {
  profiles_fk : forall k p,
    tbl_profiles d !! k = Some p -> is_Some (auth_users d !! k);
  profiles_rows : forall k p,
    tbl_profiles d !! k = Some p -> profiles_row_ok p;
  contractors_fk : forall k c u,
    tbl_contractors d !! k = Some c -> contractors.user_id c = Some u ->
    is_Some (auth_users d !! u);
  contractors_rows : forall k c,
    tbl_contractors d !! k = Some c -> contractors_row_ok c;
  contractors_unique : forall k1 k2 c1 c2 u,
    tbl_contractors d !! k1 = Some c1 -> tbl_contractors d !! k2 = Some c2 ->
    contractors.user_id c1 = Some u -> contractors.user_id c2 = Some u -> k1 = k2;
  jobs_fk : forall k j c,
    tbl_jobs d !! k = Some j -> jobs.contractor_id j = Some c ->
    is_Some (tbl_contractors d !! c);
  jobs_rows : forall k j,
    tbl_jobs d !! k = Some j -> jobs_row_ok j;
  contractors_below_seq : forall k,
    is_Some (tbl_contractors d !! k) -> k < contractors_id_seq d;
  jobs_below_seq : forall k,
    is_Some (tbl_jobs d !! k) -> k < jobs_id_seq d
}.


(** ** The rest of the state of [App.tsx] *)

Module Shell.

(** The part of a session the component reads: [session.user.id] and
    [session.user.email]. *)
Record Session := {
  user_id : uuid;
  user_email : option string
}.

(** ['dashboard' | 'booking' | 'ai' | 'history' | 'contractors' |
    'my-jobs' | 'admin-panel']. *)
Inductive TabId :=
  | tab_dashboard | tab_booking | tab_ai | tab_history
  | tab_contractors | tab_my_jobs | tab_admin_panel.

(** The seven [useState] cells; [cache] holds [jobs] and [contractors].
    [userRole] holds whatever string the profile carried. *)
Record state := {
  session : option Session;
  userRole : option string;
  loading : bool;
  activeTab : TabId;
  isSidebarOpen : bool;
  cache : App.state
}.

(** The state of the first render. *)
Definition initial : state :=
  {| session := None; userRole := None; loading := true;
     activeTab := tab_dashboard; isSidebarOpen := true;
     cache := {| App.jobs := []; App.contractors := [] |} |}.

Definition setSession (v : option Session) (s : state) : state :=
  {| session := v; userRole := userRole s; loading := loading s;
     activeTab := activeTab s; isSidebarOpen := isSidebarOpen s; cache := cache s |}.

Definition setUserRole (v : option string) (s : state) : state :=
  {| session := session s; userRole := v; loading := loading s;
     activeTab := activeTab s; isSidebarOpen := isSidebarOpen s; cache := cache s |}.

Definition setLoading (v : bool) (s : state) : state :=
  {| session := session s; userRole := userRole s; loading := v;
     activeTab := activeTab s; isSidebarOpen := isSidebarOpen s; cache := cache s |}.

Definition setCache (v : App.state) (s : state) : state :=
  {| session := session s; userRole := userRole s; loading := loading s;
     activeTab := activeTab s; isSidebarOpen := isSidebarOpen s; cache := v |}.

Definition setJobs (f : list App.Job.t -> list App.Job.t) (s : state) : state :=
  setCache {| App.jobs := f (App.jobs (cache s));
              App.contractors := App.contractors (cache s) |} s.

Definition setContractors (f : list App.Contractor.t -> list App.Contractor.t)
    (s : state) : state :=
  setCache {| App.jobs := App.jobs (cache s);
              App.contractors := f (App.contractors (cache s)) |} s.

(** What these handlers send and print. *)
Inductive event :=
  (* from('profiles').select('role').eq('id', id).single() *)
  | profiles_role_requested (id : uuid)
  (* supabase.auth.signOut() *)
  | signOut_requested
  | logged (message : string) (e : App.PostgrestError).

(** [fetchUserRole], given what the profile query resolves to for an id;
    [data] is the [role] of the single row. *)
Definition fetchUserRole (answer : uuid -> App.response string) (s : state)
    : state * list event :=
  match session s with
  | Some sess =>
      let r := answer (user_id sess) in
      match App.error r with
      | Some e => (setUserRole None s,
                   [profiles_role_requested (user_id sess);
                    logged "Error fetching user role:" e])
      | None =>
          match App.data r with
          | Some role => (setUserRole (Some role) s,
                          [profiles_role_requested (user_id sess)])
          | None => (s, [profiles_role_requested (user_id sess)])
          end
      end
  | None => (setUserRole None s, [])
  end.

(** The steps of a task that has been answered: the continuation of its
    request, up to its next request. *)
Definition resume (srv : App.backend) (n : nat) (t : App.task) (s : App.state)
    : App.state * App.task :=
  match t with
  | App.await q k => App.before_await (k (srv _ n q)) s
  | _ => (s, t)
  end.

(** [loadData]. [Promise.all([fetchJobs(), fetchContractors()])] starts
    both fetches, which sends the job query (request [n]) and then the
    contractor query (request [n + 1]); their continuations run in the
    order the answers arrive, [jobs_first] or not. *)
Definition loadData (srv : App.backend) (n : nat) (jobs_first : bool) (s : state)
    : state :=
  let s1 := setLoading true s in
  let a := App.before_await App.fetchJobs (cache s1) in
  let b := App.before_await App.fetchContractors a.1 in
  let c := if jobs_first
           then (resume srv (S n) b.2 (resume srv n a.2 b.1).1).1
           else (resume srv n a.2 (resume srv (S n) b.2 b.1).1).1 in
  setLoading false (setCache c s1).

(** A string is truthy unless it is empty. *)
Definition truthy (v : option string) : bool :=
  match v with
  | Some r => negb (bool_decide (r = ""))
  | None => false
  end.

(** The effect on [session], [userRole]: load when logged in with a role,
    otherwise leave the loading state. *)
Definition load_effect (srv : App.backend) (n : nat) (jobs_first : bool) (s : state)
    : state :=
  if bool_decide (is_Some (session s)) && truthy (userRole s)
  then loadData srv n jobs_first s
  else setLoading false s.

(** [handleSignOut], after [await supabase.auth.signOut()] has resolved
    to [answer]. *)
Definition handleSignOut (answer : option App.PostgrestError) (s : state)
    : state * list event :=
  (setContractors (fun _ => [])
     (setJobs (fun _ => []) (setUserRole None (setSession None s))),
   [signOut_requested]).

End Shell.

(** * Properties *)

(** ** Three-valued logic *)

Lemma qual_and a b : Sql.qual (Sql.and a b) = Sql.qual a && Sql.qual b.
Proof. by destruct a as [[]|], b as [[]|]. Qed.


Lemma qual_eq {A} `{EqDecision A} (a b : option A) :
  Sql.qual (Sql.eq a b) = true <-> exists x, a = Some x /\ b = Some x.
Proof.
  destruct a as [x|], b as [y|]; simpl; try (split; [done | by intros (? & ? & ?)]).
  case_bool_decide; split; try done.
  - intros _. exists x. by subst.
  - intros (z & ? & ?). congruence.
Qed.


(** ** Sub-selects on a primary key *)

Lemma qualifying_lookup {K V} `{Countable K} (where_ : K -> V -> Sql.tv)
    (t : gmap K V) k r :
  qualifying where_ t !! k = Some r <-> t !! k = Some r /\ Sql.qual (where_ k r) = true.
Proof. unfold qualifying. by rewrite map_lookup_filter_Some. Qed.

Lemma remaining_lookup {K V} `{Countable K} (where_ : K -> V -> Sql.tv)
    (t : gmap K V) k r :
  remaining where_ t !! k = Some r <-> t !! k = Some r /\ Sql.qual (where_ k r) = false.
Proof. unfold remaining. by rewrite map_lookup_filter_Some. Qed.

(** [WHERE id = v AND extra] keeps the row of key [v], when it passes
    [extra], and nothing else. *)
Lemma qualifying_key {V} (v : option uuid) (extra : V -> Sql.tv) (t : gmap uuid V) :
  map_to_list (qualifying (fun id r => Sql.and (Sql.eq (Some id) v) (extra r)) t) =
  match v with
  | Some k => match t !! k with
              | Some r => if Sql.qual (extra r) then [(k, r)] else []
              | None => []
              end
  | None => []
  end.
Proof.
  set (q := qualifying _ t).
  assert (Hq : forall i x, q !! i = Some x <->
                 v = Some i /\ t !! i = Some x /\ Sql.qual (extra x) = true).
  { intros i x. unfold q. rewrite qualifying_lookup, qual_and, andb_true_iff, qual_eq.
    split.
    - intros (? & (? & [= <-] & ->) & ?). done.
    - intros (-> & ? & ?). eauto. }
  destruct v as [k|].
  - destruct (t !! k) as [r|] eqn:Hk;
      [destruct (Sql.qual (extra r)) eqn:Hr |].
    + rewrite <-map_to_list_singleton. f_equal. apply map_eq. intros i.
      apply option_eq. intros x. rewrite Hq, lookup_singleton_Some.
      split; [intros ([= ->] & ? & ?); split; congruence
             | intros [<- <-]; done].
    + apply map_to_list_empty_iff, map_empty. intros i.
      apply eq_None_not_Some. intros [x Hx]. apply Hq in Hx as ([= ->] & ? & ?).
      congruence.
    + apply map_to_list_empty_iff, map_empty. intros i.
      apply eq_None_not_Some. intros [x Hx]. apply Hq in Hx as ([= ->] & ? & ?).
      congruence.
  - apply map_to_list_empty_iff, map_empty. intros i.
    apply eq_None_not_Some. intros [x Hx]. by apply Hq in Hx as (? & _).
Qed.

(** The role sub-select of the policies is the role of the caller's
    profile row, NULL for a caller without one. *)
Lemma caller_role_lookup d who :
  caller_role d who =
  match auth_uid who with
  | Some u => match tbl_profiles d !! u with
              | Some p => profiles.role p
              | None => None
              end
  | None => None
  end.
Proof.
  unfold caller_role.
  assert (Heq : qualifying (fun id (_ : profiles.row) => Sql.eq (Some id) (auth_uid who))
                  (tbl_profiles d) =
                qualifying (fun id (_ : profiles.row) =>
                              Sql.and (Sql.eq (Some id) (auth_uid who)) Sql.TRUE)
                  (tbl_profiles d)).
  { apply map_eq. intros i. apply option_eq. intros x.
    rewrite !qualifying_lookup, qual_and, andb_true_r. done. }
  rewrite Heq, (qualifying_key (auth_uid who) (fun _ => Sql.TRUE)).
  destruct (auth_uid who) as [u|]; [|done].
  by destruct (tbl_profiles d !! u).
Qed.

(** The guard of the admin procedures passes exactly for a caller whose
    profile has the role admin. *)
Lemma caller_is_admin_role d who :
  caller_is_admin d who = true <-> caller_role d who = Some "admin".
Proof.
  unfold caller_is_admin.
  rewrite (qualifying_key (auth_uid who)
             (fun p => Sql.eq (profiles.role p) (Some "admin"))).
  rewrite caller_role_lookup.
  destruct (auth_uid who) as [u|]; [|done].
  destruct (tbl_profiles d !! u) as [p|]; [|done].
  destruct (Sql.qual _) eqn:Hq.
  - apply qual_eq in Hq as (x & -> & [= <-]). done.
  - split; [done |]. intros Hr. rewrite Hr in Hq. done.
Qed.

(** ** What the policies grant *)

Arguments role_is : simpl never.
Arguments assigned_contractor : simpl never.
Arguments caller_role : simpl never.

(** Unfolds the evaluation of a list of policies down to the policy
    expressions. *)
Ltac eval_policies :=
  unfold can_select, can_update_row, can_delete, can_insert, can_update,
         grants_existing, grants_new;
  unfold with_check_passes, using_passes, applies; simpl.

Lemma role_is_qual {K R} (role : text) d who (k : K) (r : R) :
  Sql.qual (role_is role d who k r) = true <-> caller_role d who = Some role.
Proof.
  unfold role_is. rewrite qual_eq. split.
  - by intros (x & -> & [= <-]).
  - intros ->. eauto.
Qed.

Lemma role_is_other {K R} (role : text) d who (k : K) (r : R) :
  caller_role d who <> Some role -> Sql.qual (role_is role d who k r) = false.
Proof.
  intros Hne. apply not_true_is_false. by rewrite role_is_qual.
Qed.






(** ** The admin procedures *)

(** C2. For a caller whose profile does not have the role admin (a caller
    without profile row and the anonymous caller included),
    [get_all_users] and [delete_user] raise their exception, return
    nothing and leave every table as it was: the guard is the first
    statement of both bodies. *)
Theorem admin_procedures_refuse_non_admin d who user_id :
  (forall u p, who = authenticated u -> tbl_profiles d !! u = Some p ->
               profiles.role p <> Some "admin") ->
  get_all_users who d = (inl (raise_exception "Only admins can view all users"), d) /\
  delete_user who user_id d = (inl (raise_exception "Only admins can delete users"), d).
Proof.
  intros Hnot.
  assert (Hguard : caller_is_admin d who = false).
  { apply not_true_is_false. rewrite caller_is_admin_role, caller_role_lookup.
    destruct who as [|u]; simpl; [done |].
    destruct (tbl_profiles d !! u) as [p|] eqn:Hp; [|done].
    by apply (Hnot u p). }
  unfold get_all_users, delete_user, mbind, stmt_bind, get, require. simpl.
  by rewrite Hguard.
Qed.

Lemma admin_procedures_refuse_non_admin_witness :
  get_all_users (authenticated "u-pm") Sample.database =
    (inl (raise_exception "Only admins can view all users"), Sample.database) /\
  delete_user (authenticated "u-pm") (Some "u-mike") Sample.database =
    (inl (raise_exception "Only admins can delete users"), Sample.database).
Proof.
  apply (admin_procedures_refuse_non_admin Sample.database (authenticated "u-pm")
           (Some "u-mike")).
  intros u p [= <-]. vm_compute. intros [= <-]. discriminate.
Defined.

(** ** Callers without a profile row *)



(** ** The policy that lets property managers write contractors *)

(** The policy named for creating and updating contractors is declared
    FOR ALL: it passes for every command of a property manager. *)
Lemma pm_contractors_every_command d u p :
  tbl_profiles d !! u = Some p ->
  profiles.role p = Some "pm" ->
  forall c k r, grants_existing contractors_policies c d (authenticated u) k r = true /\
                grants_new contractors_policies c d (authenticated u) k r = true.
Proof.
  intros Hp Hrole c k r.
  assert (Hr : Sql.qual (role_is "pm" d (authenticated u) k r) = true).
  { apply role_is_qual. rewrite caller_role_lookup. simpl. by rewrite Hp. }
  split; eval_policies; rewrite Hr; by rewrite !orb_true_r.
Qed.


(** ** Constraints *)

Lemma check_only_ret : check_only (mret tt).
Proof. intros d. by left. Qed.

Lemma check_only_require ok e : check_only (require ok e).
Proof. intros d. destruct ok; [by left | right; by exists e]. Qed.

Lemma check_only_seq (m k : stmt ()) :
  check_only m -> check_only k -> check_only (m;; k).
Proof.
  intros Hm Hk d. unfold mbind, stmt_bind.
  destruct (Hm d) as [-> | [e ->]]; [apply Hk | right; by exists e].
Qed.

Lemma check_only_for_each {A} (f : A -> stmt ()) l :
  (forall x, check_only (f x)) -> check_only (for_each f l).
Proof.
  intros Hf. induction l as [|x l IH]; simpl.
  - apply check_only_ret.
  - by apply check_only_seq.
Qed.

Create HintDb checks.
#[local] Hint Resolve check_only_ret check_only_require check_only_seq : checks.

Lemma check_only_profiles_row r : check_only (profiles_row_constraints r).
Proof. unfold profiles_row_constraints, not_null. auto with checks. Qed.

Lemma check_only_contractors_row r : check_only (contractors_row_constraints r).
Proof. unfold contractors_row_constraints, not_null. auto with checks. Qed.

Lemma check_only_jobs_row r : check_only (jobs_row_constraints r).
Proof. unfold jobs_row_constraints, not_null. auto 10 with checks. Qed.

(** A failure after checks, and a failure followed by anything, is a
    failure on the same database. *)
Lemma seq_fails_right (m k : stmt ()) d :
  check_only m -> (exists e, k d = (inl e, d)) -> exists e, (m;; k) d = (inl e, d).
Proof.
  intros Hm [e Hk]. unfold mbind, stmt_bind.
  destruct (Hm d) as [-> | [e' ->]]; eauto.
Qed.

Lemma seq_fails_left {A B} (m : stmt A) (k : A -> stmt B) d e :
  m d = (inl e, d) -> (m ≫= k) d = (inl e, d).
Proof. intros Hm. unfold mbind, stmt_bind. by rewrite Hm. Qed.

Lemma for_each_fails {A} (f : A -> stmt ()) l x d :
  (forall y, check_only (f y)) -> x ∈ l ->
  (exists e, f x d = (inl e, d)) ->
  exists e, for_each f l d = (inl e, d).
Proof.
  intros Hf Hin Hx. induction l as [|y l IH]; [by apply elem_of_nil in Hin |].
  simpl. apply elem_of_cons in Hin as [<- | Hin].
  - destruct Hx as [e Hx]. exists e. by apply seq_fails_left.
  - apply seq_fails_right; auto.
Qed.

(** A value outside a list of constants makes IN false, not unknown. *)
Lemma in_outside {A} `{EqDecision A} (x : A) (l : list (option A)) :
  Some x ∉ l -> Forall is_Some l -> Sql.in_ (Some x) l = Sql.FALSE.
Proof.
  induction l as [|v l IH]; [done |].
  intros Hnotin Hall. apply not_elem_of_cons in Hnotin as [Hne Hnotin].
  apply Forall_cons in Hall as [[y ->] Hall].
  simpl. rewrite (IH Hnotin Hall). simpl.
  case_bool_decide; [congruence | done].
Qed.

Lemma profiles_row_rejected r d :
  profiles.role r ∉ [Some "pm"; Some "contractor"; Some "admin"] ->
  exists e, profiles_row_constraints r d = (inl e, d).
Proof.
  intros Hout. unfold profiles_row_constraints, not_null.
  destruct (profiles.role r) as [x|] eqn:Hrole.
  - apply seq_fails_right; [auto with checks |].
    unfold profiles_role_check. rewrite Hrole, in_outside; [| done |].
    + simpl. eauto.
    + repeat constructor; eauto.
  - eexists. by apply seq_fails_left.
Qed.










(** ** Referential actions *)




(** ** The state controller *)

(** [contractors.find(c => c.id === contractorId)] finds a contractor
    exactly when the list has one with that id. *)
Lemma find_contractor_present (cs : list App.Contractor.t) (contractorId : Z) :
  (exists c, c ∈ cs /\ App.Contractor.id c = contractorId) ->
  exists c, List.find (fun c => App.Contractor.id c =? contractorId) cs = Some c /\
            c ∈ cs /\ App.Contractor.id c = contractorId.
Proof.
  intros (c0 & Hin & Hid).
  destruct (List.find _ cs) as [c|] eqn:Hfind.
  - apply find_some in Hfind as [Hc Heq]. exists c. split; [done |].
    split; [by apply list_elem_of_In | by apply Z.eqb_eq].
  - apply list_elem_of_In in Hin.
    pose proof (find_none _ _ Hfind c0 Hin) as Hne. simpl in Hne.
    apply Z.eqb_neq in Hne. done.
Qed.

Lemma find_contractor_absent (cs : list App.Contractor.t) (contractorId : Z) :
  (forall c, c ∈ cs -> App.Contractor.id c <> contractorId) ->
  List.find (fun c => App.Contractor.id c =? contractorId) cs = None.
Proof.
  intros Habsent. destruct (List.find _ cs) as [c|] eqn:Hfind; [|done].
  apply find_some in Hfind as [Hc Heq].
  apply list_elem_of_In in Hc. apply Z.eqb_eq in Heq. by destruct (Habsent c).
Qed.

(** C5. When the job list holds a pending job with id [jobId] and the
    contractor list holds a contractor with id [contractorId],
    [handleAssignJob] has, by the time it waits for the update request,
    replaced that job by one in progress whose contractor id is
    [contractorId] and whose contractor name is that contractor's. *)
Theorem assign_shows_at_once (s : App.state) (jobId contractorId : Z)
    (i : nat) (job : App.Job.t) :
  (exists c, c ∈ App.contractors s /\ App.Contractor.id c = contractorId) ->
  App.jobs s !! i = Some job ->
  App.Job.id job = jobId ->
  App.Job.status job = App.Pending ->
  exists c s' k job',
    c ∈ App.contractors s /\ App.Contractor.id c = contractorId /\
    App.before_await (App.handleAssignJob (App.contractors s) jobId contractorId) s =
      (s', App.await
             (App.from_jobs_update
                {| App.patch_contractor_id := Some contractorId;
                   App.patch_status := Some App.InProgress |} jobId) k) /\
    App.jobs s' !! i = Some job' /\
    App.Job.id job' = jobId /\
    App.Job.status job' = App.InProgress /\
    App.Job.contractor_id job' = App.value contractorId /\
    App.Job.contractor_name job' = App.value (App.Contractor.name c).
Proof.
  intros Hpresent Hjob Hid _.
  destruct (find_contractor_present _ _ Hpresent) as (c & Hfind & Hin & Hc).
  unfold App.handleAssignJob. rewrite Hfind. simpl.
  eexists c, _, _, _. split; [done |]. split; [done |]. split; [reflexivity |].
  simpl. rewrite list_lookup_fmap, Hjob. simpl.
  rewrite (proj2 (Z.eqb_eq _ _) Hid). done.
Qed.

Lemma assign_shows_at_once_witness :
  exists c s' k job',
    c ∈ App.contractors App.sample_state /\ App.Contractor.id c = 2 /\
    App.before_await (App.handleAssignJob (App.contractors App.sample_state) 8 2)
                     App.sample_state =
      (s', App.await
             (App.from_jobs_update
                {| App.patch_contractor_id := Some 2;
                   App.patch_status := Some App.InProgress |} 8) k) /\
    App.jobs s' !! 1%nat = Some job' /\
    App.Job.id job' = 8 /\
    App.Job.status job' = App.InProgress /\
    App.Job.contractor_id job' = App.value 2 /\
    App.Job.contractor_name job' = App.value (App.Contractor.name c).
Proof.
  apply (assign_shows_at_once App.sample_state 8 2 1 (App.sample_job 8 "B2"));
    try reflexivity.
  exists (App.sample_contractor 2 "Cleaning Crew Co."). split; [|reflexivity].
  apply elem_of_cons. right. apply elem_of_cons. by left.
Defined.

(** C10. With no contractor of id [contractorId] in the list,
    [handleAssignJob] is the empty task: run against any backend it
    leaves the state as it was and sends nothing. *)
Theorem assign_unknown_contractor_does_nothing
    (cs : list App.Contractor.t) (jobId contractorId : Z) :
  (forall c, c ∈ cs -> App.Contractor.id c <> contractorId) ->
  App.handleAssignJob cs jobId contractorId = App.done /\
  forall srv n s, App.run srv (App.handleAssignJob cs jobId contractorId) n s = (s, []).
Proof.
  intros Habsent. unfold App.handleAssignJob.
  by rewrite (find_contractor_absent _ _ Habsent).
Qed.

Lemma assign_unknown_contractor_does_nothing_witness :
  App.run App.failing_backend
    (App.handleAssignJob (App.contractors App.sample_state) 7 5) 0 App.sample_state =
  (App.sample_state, []).
Proof.
  apply (assign_unknown_contractor_does_nothing (App.contractors App.sample_state) 7 5).
  intros c Hin.
  repeat (apply elem_of_cons in Hin as [-> | Hin]; [discriminate |]).
  by apply elem_of_nil in Hin.
Defined.

(** A run of [fetchJobs]: one request, a console line when it fails, and
    the job list that its answer determines. *)
Lemma run_fetchJobs (srv : App.backend) n s :
  let r := srv _ n App.from_jobs_select in
  App.run srv App.fetchJobs n s =
  ({| App.jobs := App.fetched_jobs r (App.jobs s);
      App.contractors := App.contractors s |},
   App.issued App.from_jobs_select ::
   match App.error r with
   | Some e => [App.logged "Error fetching jobs:" e]
   | None => []
   end).
Proof.
  simpl. unfold App.fetched_jobs.
  destruct (App.error _) as [e|]; simpl; [done |].
  destruct (App.data _) as [rows|]; simpl; [done |].
  by destruct s.
Qed.

(** C9. When the job query fails, [fetchJobs] leaves the empty list in
    place of the job list it found, and when the contractor query fails,
    [fetchContractors] leaves the empty list in place of the contractor
    list. *)
Theorem failed_fetch_empties_the_list (srv : App.backend) n s e :
  (App.error (srv _ n App.from_jobs_select) = Some e ->
   App.run srv App.fetchJobs n s =
     ({| App.jobs := []; App.contractors := App.contractors s |},
      [App.issued App.from_jobs_select; App.logged "Error fetching jobs:" e])) /\
  (App.error (srv _ n App.from_contractors_select) = Some e ->
   App.run srv App.fetchContractors n s =
     ({| App.jobs := App.jobs s; App.contractors := [] |},
      [App.issued App.from_contractors_select;
       App.logged "Error fetching contractors:" e])).
Proof.
  split; intros Herr; simpl; by rewrite Herr.
Qed.

Lemma failed_fetch_empties_the_list_witness :
  App.jobs (App.run App.failing_backend App.fetchJobs 0 App.sample_state).1 = [] /\
  App.contractors
    (App.run App.failing_backend App.fetchContractors 0 App.sample_state).1 = [].
Proof.
  destruct (failed_fetch_empties_the_list App.failing_backend 0 App.sample_state
              "network") as [Hjobs Hcontractors].
  split.
  - by rewrite (Hjobs eq_refl).
  - by rewrite (Hcontractors eq_refl).
Defined.

(** C6. When the update request of [handleAssignJob] or of
    [handleUpdateJobStatus] fails, the handler logs the failure and calls
    [fetchJobs] once: the run sends two requests in all, the update and
    one job query, and never the update again. The job list it ends with
    is the one [fetchJobs] makes of the answer: the processed rows when
    the query returns rows, whatever the optimistic list was. [n] is the
    number of requests the backend has answered before. *)
Theorem failed_mutation_one_reconciliation (srv : App.backend) n s jobId :
  (forall contractorId c e,
     List.find (fun c => App.Contractor.id c =? contractorId) (App.contractors s) = Some c ->
     let update := App.from_jobs_update
                     {| App.patch_contractor_id := Some contractorId;
                        App.patch_status := Some App.InProgress |} jobId in
     App.error (srv _ n update) = Some e ->
     let r := App.run srv (App.handleAssignJob (App.contractors s) jobId contractorId)
                      n s in
     let answer := srv _ (S n) App.from_jobs_select in
     r.2 = App.issued update :: App.logged "Failed to assign job:" e ::
           App.issued App.from_jobs_select ::
           match App.error answer with
           | Some e' => [App.logged "Error fetching jobs:" e']
           | None => []
           end /\
     App.requests_sent r.2 = 2%nat /\
     (forall rows, answer = {| App.data := Some rows; App.error := None |} ->
                   App.jobs r.1 = App.processJob <$> rows)) /\
  (forall status e,
     let update := App.from_jobs_update
                     {| App.patch_contractor_id := None;
                        App.patch_status := Some status |} jobId in
     App.error (srv _ n update) = Some e ->
     let r := App.run srv (App.handleUpdateJobStatus jobId status) n s in
     let answer := srv _ (S n) App.from_jobs_select in
     r.2 = App.issued update :: App.logged "Failed to update job status:" e ::
           App.issued App.from_jobs_select ::
           match App.error answer with
           | Some e' => [App.logged "Error fetching jobs:" e']
           | None => []
           end /\
     App.requests_sent r.2 = 2%nat /\
     (forall rows, answer = {| App.data := Some rows; App.error := None |} ->
                   App.jobs r.1 = App.processJob <$> rows)).
Proof.
  split.
  - intros contractorId c e Hfind update Herr r answer.
    set (optimistic :=
           {| App.jobs := (fun job => if App.Job.id job =? jobId
                                      then App.assigned contractorId
                                             (App.Contractor.name c) job
                                      else job) <$> App.jobs s;
              App.contractors := App.contractors s |}).
    assert (Hr : r = ((App.run srv App.fetchJobs (S n) optimistic).1,
                      App.issued update :: App.logged "Failed to assign job:" e ::
                      (App.run srv App.fetchJobs (S n) optimistic).2)).
    { unfold r, App.handleAssignJob. rewrite Hfind.
      cbn [App.run]. fold update. rewrite Herr. reflexivity. }
    rewrite Hr, !run_fetchJobs. fold answer. cbn [fst snd].
    split; [done |]. split.
    + unfold App.requests_sent. by destruct (App.error answer).
    + intros rows Hrows. cbn [App.jobs]. unfold App.fetched_jobs. by rewrite Hrows.
  - intros status e update Herr r answer.
    set (optimistic :=
           {| App.jobs := (fun job => if App.Job.id job =? jobId
                                      then App.with_status status job
                                      else job) <$> App.jobs s;
              App.contractors := App.contractors s |}).
    assert (Hr : r = ((App.run srv App.fetchJobs (S n) optimistic).1,
                      App.issued update :: App.logged "Failed to update job status:" e ::
                      (App.run srv App.fetchJobs (S n) optimistic).2)).
    { unfold r, App.handleUpdateJobStatus.
      cbn [App.run]. fold update. rewrite Herr. reflexivity. }
    rewrite Hr, !run_fetchJobs. fold answer. cbn [fst snd].
    split; [done |]. split.
    + unfold App.requests_sent. by destruct (App.error answer).
    + intros rows Hrows. cbn [App.jobs]. unfold App.fetched_jobs. by rewrite Hrows.
Qed.

Lemma failed_mutation_one_reconciliation_witness :
  let rows := [ {| App.columns := App.sample_job 7 "A1";
                   App.contractors_member := App.embedded_null |} ] in
  let r := App.run (App.refusing_backend rows)
                   (App.handleAssignJob (App.contractors App.sample_state) 7 1)
                   0 App.sample_state in
  App.requests_sent r.2 = 2%nat /\ App.jobs r.1 = App.processJob <$> rows.
Proof.
  intros rows r.
  destruct (failed_mutation_one_reconciliation (App.refusing_backend rows)
              0 App.sample_state 7) as [Hassign _].
  destruct (Hassign 1 (App.sample_contractor 1 "Mike's Maintenance") "denied"
              eq_refl eq_refl) as (_ & Hcount & Hjobs).
  split; [exact Hcount | apply Hjobs; reflexivity].
Defined.

(** ** The definitions at work on the samples *)

(** The four roles on the jobs and contractors of the sample database. *)
Example sample_policies :
  let d := Sample.database in
  let a1 := Sample.job "A1" (Some 1) "In Progress" in
  let b2 := Sample.job "B2" (Some 2) "In Progress" in
  let c3 := Sample.job "C3" None "Pending" in
  (* the contractor linked to contractor 1 *)
  can_select jobs_policies d (authenticated "u-mike") 1 a1 = true /\
  can_select jobs_policies d (authenticated "u-mike") 2 b2 = false /\
  can_select jobs_policies d (authenticated "u-mike") 3 c3 = false /\
  can_update jobs_policies d (authenticated "u-mike") 1 a1
             (jobs.set_status (Some "Completed") a1) = true /\
  can_update jobs_policies d (authenticated "u-mike") 1 a1
             (jobs.set_contractor_id (Some 3) a1) = false /\
  can_insert jobs_policies d (authenticated "u-mike") 4 c3 = false /\
  can_delete contractors_policies d (authenticated "u-mike") 1 Sample.mikes = false /\
  (* the property manager *)
  can_select jobs_policies d (authenticated "u-pm") 3 c3 = true /\
  can_insert jobs_policies d (authenticated "u-pm") 4 c3 = true /\
  can_delete jobs_policies d (authenticated "u-pm") 3 c3 = false /\
  can_select profiles_policies d (authenticated "u-pm") "u-pm"
             {| profiles.role := Some "pm" |} = true /\
  can_select profiles_policies d (authenticated "u-pm") "u-admin"
             {| profiles.role := Some "admin" |} = false /\
  (* the admin *)
  can_delete jobs_policies d (authenticated "u-admin") 3 c3 = true /\
  can_select profiles_policies d (authenticated "u-admin") "u-pm"
             {| profiles.role := Some "pm" |} = true /\
  (* nobody *)
  can_select contractors_policies d anon 1 Sample.mikes = false /\
  can_select jobs_policies d anon 1 a1 = false.
Proof. vm_compute. repeat split. Qed.

(** The constraints accept the rows of the script and a contractor
    without rating; the admin lists the four profiled identities. *)
Example sample_statements :
  let d := Sample.database in
  succeeded (insert_contractors Sample.cleaning_crew d) = true /\
  succeeded (insert_contractors
               {| contractors.user_id := None; contractors.name := Some "New Crew";
                  contractors.specialty := None; contractors.rating := None;
                  contractors.avatar := None; contractors.created_at := None |} d) = true /\
  succeeded (insert_contractors Sample.mikes d) = false /\
  succeeded (insert_jobs (Sample.job "D4" (Some 3) "Pending") d) = true /\
  succeeded (insert_jobs (Sample.job "D4" (Some 9) "Pending") d) = false /\
  succeeded (insert_profiles (Some "u-new") {| profiles.role := Some "pm" |} d) = true /\
  succeeded (insert_profiles (Some "u-pm") {| profiles.role := Some "admin" |} d) = false /\
  succeeded (update_jobs (fun id _ => Sql.eq (Some id) (Some 3))
                         (jobs.set_status (Some "Completed")) d) = true /\
  succeeded (insert_jobs (jobs.set_status jobs_status_default
                            (Sample.job "E5" None "")) d) = true /\
  length (users_join_profiles d) = 4%nat /\
  succeeded (get_all_users (authenticated "u-admin") d) = true /\
  tbl_profiles (delete_user (authenticated "u-admin") (Some "u-pm") d).2 !! "u-pm" = None.
Proof. vm_compute. repeat split. Qed.

(** [processJob] on the three shapes of the embedded member. *)
Example sample_processJob :
  let job := App.sample_job 7 "A1" in
  App.Job.contractor_name
    (App.processJob {| App.columns := job;
                       App.contractors_member := App.embedded_object "Sparkle & Shine" |})
    = App.value "Sparkle & Shine" /\
  App.Job.contractor_name
    (App.processJob {| App.columns := job;
                       App.contractors_member := App.embedded_array [] |})
    = App.null /\
  App.Job.contractor_name
    (App.processJob {| App.columns := job;
                       App.contractors_member := App.embedded_null |})
    = App.undefined.
Proof. repeat split. Qed.

(** * Further properties of the script *)

(** ** Roles and the three tables *)










(** X5. The anonymous caller passes no policy: [auth.uid()] is NULL, so
    the role sub-select and the own-profile comparison are unknown, and
    the read grant on [contractors] is declared TO authenticated. *)
Theorem anon_is_granted_nothing d c :
  (forall k r, grants_existing profiles_policies c d anon k r = false /\
               grants_new profiles_policies c d anon k r = false) /\
  (forall k r, grants_existing contractors_policies c d anon k r = false /\
               grants_new contractors_policies c d anon k r = false) /\
  (forall k r, grants_existing jobs_policies c d anon k r = false /\
               grants_new jobs_policies c d anon k r = false).
Proof.
  assert (Hq : forall K R role (k : K) (r : R),
             Sql.qual (role_is role d anon k r) = false).
  { intros. apply role_is_other. by rewrite caller_role_lookup. }
  assert (Ha : forall k j, Sql.qual (assigned_contractor d anon k j) = false).
  { intros. unfold assigned_contractor. by rewrite qual_and, Hq. }
  repeat split; eval_policies; rewrite ?Hq, ?Ha; by destruct c.
Qed.

(** ** The admin procedures, called by an admin *)

(** The rows of the join are the identities that have a profile, each
    with the columns of its two rows. *)
Lemma users_join_profiles_spec d (mu : managed_user) :
  mu ∈ users_join_profiles d <->
  exists u p, auth_users d !! mu_id mu = Some u /\
              tbl_profiles d !! mu_id mu = Some p /\
              mu = {| mu_id := mu_id mu; mu_email := users.email u;
                      mu_role := profiles.role p;
                      mu_created_at := users.created_at u |}.
Proof.
  unfold users_join_profiles. rewrite list_elem_of_bind. split.
  - intros ([id u] & Hin & Hu). apply list_elem_of_bind in Hin as ([id' p] & Hin & Hp).
    apply elem_of_map_to_list in Hu, Hp. simpl in Hin.
    case_bool_decide as Heq; simpl in Hin; [|by apply elem_of_nil in Hin].
    apply list_elem_of_singleton in Hin. subst mu. simpl. subst id'.
    exists u, p. done.
  - intros (u & p & Hu & Hp & Hmu). exists (mu_id mu, u). split.
    + apply list_elem_of_bind. exists (mu_id mu, p). split.
      * simpl. rewrite bool_decide_eq_true_2 by done. simpl.
        apply list_elem_of_singleton. done.
      * by apply elem_of_map_to_list.
    + by apply elem_of_map_to_list.
Qed.

(** No identity is listed twice. *)
Lemma users_join_profiles_NoDup d : NoDup (mu_id <$> users_join_profiles d).
Proof.
  unfold users_join_profiles.
  pose proof (NoDup_fst_map_to_list (auth_users d)) as Hu.
  pose proof (NoDup_fst_map_to_list (tbl_profiles d)) as Hp.
  induction (map_to_list (auth_users d)) as [|[id u] l IH]; [constructor |].
  rewrite bind_cons, fmap_app. simpl in Hu. apply NoDup_cons in Hu as [Hid Hl].
  apply NoDup_app. split; [| split; [| by apply IH]].
  - clear IH Hid Hl. simpl.
    induction (map_to_list (tbl_profiles d)) as [|[id' p] l' IH']; [constructor |].
    simpl in Hp. apply NoDup_cons in Hp as [Hid' Hl'].
    rewrite bind_cons, fmap_app. apply NoDup_app.
    split; [| split; [| by apply IH']].
    + simpl. case_bool_decide; simpl; [apply NoDup_singleton | constructor].
    + intros x Hx Hx'. simpl in Hx.
      case_bool_decide as Heq; simpl in Hx; [|by apply elem_of_nil in Hx].
      apply list_elem_of_singleton in Hx. subst x id'.
      apply list_elem_of_fmap in Hx' as (mu & Hmu & Hin).
      apply list_elem_of_bind in Hin as ([id'' p''] & Hin & Hp'').
      simpl in Hin. case_bool_decide as Heq'; simpl in Hin;
        [|by apply elem_of_nil in Hin].
      apply Hid'. apply list_elem_of_fmap. exists (id'', p''). subst id''. done.
  - intros x Hx Hx'.
    apply list_elem_of_fmap in Hx as (mu & -> & Hin).
    apply list_elem_of_bind in Hin as ([id' p] & Hin & _). simpl in Hin.
    case_bool_decide; simpl in Hin; [|by apply elem_of_nil in Hin].
    apply list_elem_of_singleton in Hin. subst mu. simpl in Hx'.
    apply list_elem_of_fmap in Hx' as (mu' & Hid' & Hin').
    apply list_elem_of_bind in Hin' as ([id2 u2] & Hin' & Hu2).
    apply list_elem_of_bind in Hin' as ([id3 p3] & Hin' & _). simpl in Hin'.
    case_bool_decide; simpl in Hin'; [|by apply elem_of_nil in Hin'].
    apply list_elem_of_singleton in Hin'. subst mu'. simpl in Hid'. subst id2.
    apply Hid. apply list_elem_of_fmap. exists (id, u2). done.
Qed.

Lemma get_all_users_as_admin d who :
  caller_is_admin d who = true ->
  get_all_users who d = (inr (users_join_profiles d), d).
Proof.
  intros Hadmin. unfold get_all_users, mbind, stmt_bind, get, require.
  by rewrite Hadmin.
Qed.

Lemma get_all_users_refused d who :
  caller_is_admin d who = false ->
  get_all_users who d = (inl (raise_exception "Only admins can view all users"), d).
Proof.
  intros Hadmin. unfold get_all_users, mbind, stmt_bind, get, require.
  by rewrite Hadmin.
Qed.

(** X6. Called by an admin, [get_all_users] changes nothing and returns
    one row for each identity that has a profile, with the identity's
    email and creation time and the profile's role; an identity without
    profile is not listed. *)
Theorem get_all_users_lists_profiled_identities d who :
  caller_is_admin d who = true ->
  exists rows,
    get_all_users who d = (inr rows, d) /\
    NoDup (mu_id <$> rows) /\
    forall mu, mu ∈ rows <->
      exists u p, auth_users d !! mu_id mu = Some u /\
                  tbl_profiles d !! mu_id mu = Some p /\
                  mu = {| mu_id := mu_id mu; mu_email := users.email u;
                          mu_role := profiles.role p;
                          mu_created_at := users.created_at u |}.
Proof.
  intros Hadmin. exists (users_join_profiles d). split; [| split].
  - by apply get_all_users_as_admin.
  - apply users_join_profiles_NoDup.
  - apply users_join_profiles_spec.
Qed.

Lemma get_all_users_lists_profiled_identities_witness :
  exists rows,
    get_all_users (authenticated "u-admin") Sample.database = (inr rows, Sample.database) /\
    NoDup (mu_id <$> rows) /\
    forall mu, mu ∈ rows <->
      exists u p, auth_users Sample.database !! mu_id mu = Some u /\
                  tbl_profiles Sample.database !! mu_id mu = Some p /\
                  mu = {| mu_id := mu_id mu; mu_email := users.email u;
                          mu_role := profiles.role p;
                          mu_created_at := users.created_at u |}.
Proof.
  apply (get_all_users_lists_profiled_identities Sample.database (authenticated "u-admin")).
  vm_compute. reflexivity.
Defined.

(** The identities a [DELETE ... WHERE id = u] removes. *)
Lemma qualifying_id_lookup {V} (t : gmap uuid V) (u : option uuid) k :
  qualifying (fun id _ => Sql.eq (Some id) u) t !! k =
  if bool_decide (u = Some k) then t !! k else None.
Proof.
  apply option_eq. intros v. rewrite qualifying_lookup, qual_eq.
  case_bool_decide as Hk.
  - subst u. split; [tauto |]. intros Hv. split; [done |]. by exists k.
  - split; [| done]. intros (_ & x & [= <-] & ->). done.
Qed.

Lemma remaining_id {V} (t : gmap uuid V) (u : uuid) :
  remaining (fun id _ => Sql.eq (Some id) (Some u)) t = delete u t.
Proof.
  apply map_eq. intros k. apply option_eq. intros v.
  rewrite remaining_lookup, lookup_delete_Some. simpl.
  case_bool_decide as Hk; split.
  - intros [_ ?]. done.
  - intros [Hne _]. congruence.
  - intros [Hv _]. split; [congruence | done].
  - intros [_ Hv]. done.
Qed.

Lemma delete_user_as_admin d who u :
  caller_is_admin d who = true ->
  is_Some (auth_users d !! u) ->
  let r := delete_user who (Some u) d in
  r.1 = inr tt /\
  auth_users r.2 = delete u (auth_users d) /\
  tbl_profiles r.2 = delete u (tbl_profiles d) /\
  tbl_jobs r.2 = tbl_jobs d /\
  (forall k, tbl_contractors r.2 !! k =
             (fun c => if bool_decide (contractors.user_id c = Some u)
                       then contractors.set_user_id None c else c)
               <$> tbl_contractors d !! k).
Proof.
  intros Hadmin [urow Hu] r.
  assert (Hr : r = delete_users (fun id _ => Sql.eq (Some id) (Some u)) d).
  { unfold r, delete_user, mbind, stmt_bind, get, require. by rewrite Hadmin. }
  rewrite Hr. unfold delete_users, modify.
  cbn [fst snd auth_users tbl_profiles tbl_contractors tbl_jobs].
  split; [done |]. split; [apply remaining_id |]. split; [| split; [done |]].
  - apply map_eq. intros k. apply option_eq. intros v.
    rewrite map_lookup_filter_Some, lookup_delete_Some. cbn [fst].
    rewrite qualifying_id_lookup. case_bool_decide as Hk.
    + injection Hk as ->. rewrite Hu. split; [intros [_ ?]; done | intros [? _]; done].
    + split; intros [? ?]; split; congruence.
  - intros k. rewrite lookup_fmap. destruct (tbl_contractors d !! k) as [c|]; [|done].
    cbv [fmap option_fmap option_map]. f_equal. unfold contractors_on_delete_users.
    destruct (contractors.user_id c) as [u'|] eqn:Hlink.
    + rewrite qualifying_id_lookup.
      destruct (decide (u' = u)) as [-> | Hne].
      * rewrite !(bool_decide_eq_true_2 (Some u = Some u)) by done.
        rewrite Hu. by rewrite bool_decide_eq_true_2.
      * rewrite (bool_decide_eq_false_2 (Some u = Some u')) by congruence.
        rewrite (bool_decide_eq_false_2 (Some u' = Some u)) by congruence.
        rewrite bool_decide_eq_false_2; [done |]. by intros [? ?].
    + by rewrite bool_decide_eq_false_2.
Qed.

(** X7. Called by an admin on an identity that exists, [delete_user]
    succeeds, removes the identity and (by the cascade) its profile,
    leaves every other identity and profile and every job as they were,
    and touches no contractor except for clearing the link of the one
    linked to that identity. *)
Theorem delete_user_removes_identity_and_profile d who u :
  caller_is_admin d who = true ->
  is_Some (auth_users d !! u) ->
  let r := delete_user who (Some u) d in
  r.1 = inr tt /\
  auth_users r.2 = delete u (auth_users d) /\
  tbl_profiles r.2 = delete u (tbl_profiles d) /\
  tbl_jobs r.2 = tbl_jobs d /\
  (forall k, tbl_contractors r.2 !! k =
             (fun c => if bool_decide (contractors.user_id c = Some u)
                       then contractors.set_user_id None c else c)
               <$> tbl_contractors d !! k).
Proof. apply delete_user_as_admin. Qed.

Lemma delete_user_removes_identity_and_profile_witness :
  let r := delete_user (authenticated "u-admin") (Some "u-sparkle") Sample.database in
  r.1 = inr tt /\
  tbl_profiles r.2 = delete "u-sparkle" (tbl_profiles Sample.database) /\
  tbl_jobs r.2 = tbl_jobs Sample.database.
Proof.
  intros r.
  destruct (delete_user_removes_identity_and_profile Sample.database
              (authenticated "u-admin") "u-sparkle"
              ltac:(vm_compute; reflexivity) ltac:(vm_compute; eauto))
    as (Hok & _ & Hprofiles & Hjobs & _).
  split; [exact Hok |]. split; [exact Hprofiles | exact Hjobs].
Defined.

(** X8. [delete_user] on NULL, or on an identity that does not exist,
    succeeds for an admin and changes nothing. *)
Theorem delete_user_unknown_is_noop d who (user_id : option uuid) :
  caller_is_admin d who = true ->
  (forall u, user_id = Some u -> auth_users d !! u = None) ->
  delete_user who user_id d = (inr tt, d).
Proof.
  intros Hadmin Hunknown.
  unfold delete_user, mbind, stmt_bind, get, require. rewrite Hadmin.
  unfold delete_users, modify. f_equal.
  assert (Hgone : forall k, qualifying (fun id (_ : users.row) => Sql.eq (Some id) user_id)
                              (auth_users d) !! k = None).
  { intros k. rewrite qualifying_id_lookup. case_bool_decide; [|done]. by apply Hunknown. }
  destruct d as [us ps cs js cseq jseq].
  cbn [auth_users tbl_profiles tbl_contractors tbl_jobs contractors_id_seq jobs_id_seq] in *.
  f_equal.
  - apply map_eq. intros k. apply option_eq. intros v.
    rewrite remaining_lookup. split; [tauto |]. intros Hv. split; [done |].
    apply not_true_is_false. intros Hq.
    assert (qualifying (fun id (_ : users.row) => Sql.eq (Some id) user_id) us !! k = Some v)
      by (by apply qualifying_lookup).
    by rewrite Hgone in H.
  - apply map_filter_id. intros k v _. cbn [fst]. apply Hgone.
  - apply map_eq. intros k. rewrite lookup_fmap.
    destruct (cs !! k) as [c|]; [|done].
    cbv [fmap option_fmap option_map]. f_equal.
    unfold contractors_on_delete_users.
    destruct (contractors.user_id c) as [u'|]; [|done].
    rewrite Hgone. rewrite bool_decide_eq_false_2; [done |]. by intros [? ?].
Qed.

Lemma delete_user_unknown_is_noop_witness :
  delete_user (authenticated "u-admin") (Some "u-nobody") Sample.database =
  (inr tt, Sample.database).
Proof.
  apply (delete_user_unknown_is_noop Sample.database (authenticated "u-admin")
           (Some "u-nobody")).
  - vm_compute. reflexivity.
  - intros u [= <-]. vm_compute. reflexivity.
Defined.

(** X9. Once an admin has deleted an identity, that identity has no role
    any more (also when the admin deleted their own), the admin
    procedures refuse it, and no later [get_all_users] lists it. *)
Theorem deleted_identity_has_no_access d who u :
  caller_is_admin d who = true ->
  is_Some (auth_users d !! u) ->
  let d' := (delete_user who (Some u) d).2 in
  caller_role d' (authenticated u) = None /\
  get_all_users (authenticated u) d' =
    (inl (raise_exception "Only admins can view all users"), d') /\
  (forall other rows, get_all_users other d' = (inr rows, d') -> u ∉ mu_id <$> rows).
Proof.
  intros Hadmin Hu d'.
  destruct (delete_user_as_admin d who u Hadmin Hu) as (_ & Husers & Hprofiles & _).
  fold d' in Husers, Hprofiles.
  assert (Hrole : caller_role d' (authenticated u) = None).
  { rewrite caller_role_lookup. simpl. by rewrite Hprofiles, lookup_delete_eq. }
  split; [done |]. split.
  - apply get_all_users_refused. apply not_true_is_false.
    rewrite caller_is_admin_role, Hrole. done.
  - intros other rows Hrows Hin.
    destruct (caller_is_admin d' other) eqn:Hother.
    + rewrite (get_all_users_as_admin d' other Hother) in Hrows.
      injection Hrows as <-.
      apply list_elem_of_fmap in Hin as (mu & -> & Hmu).
      apply users_join_profiles_spec in Hmu as (urow & p & Hurow & _).
      by rewrite Husers, lookup_delete_eq in Hurow.
    + rewrite (get_all_users_refused d' other Hother) in Hrows. done.
Qed.

Lemma deleted_identity_has_no_access_witness :
  let d' := (delete_user (authenticated "u-admin") (Some "u-admin") Sample.database).2 in
  caller_role d' (authenticated "u-admin") = None /\
  get_all_users (authenticated "u-admin") d' =
    (inl (raise_exception "Only admins can view all users"), d').
Proof.
  intros d'.
  destruct (deleted_identity_has_no_access Sample.database (authenticated "u-admin")
              "u-admin" ltac:(vm_compute; reflexivity) ltac:(vm_compute; eauto))
    as (Hrole & Hrefused & _).
  split; [exact Hrole | exact Hrefused].
Defined.

(** ** Sign-up *)




(** A failure inside a statement is a failure of the statement, on the
    database it started from. *)
Lemma atomic_fails {A} (m : stmt A) d :
  (exists e d', m d = (inl e, d')) -> exists e, atomic m d = (inl e, d).
Proof. intros (e & d' & Hm). exists e. unfold atomic. by rewrite Hm. Qed.

(** X11. Creating an identity whose metadata has no role, or a role
    outside the three, fails in the trigger, and the insert of the
    identity is undone with it: the database is as before. *)
Theorem sign_up_without_valid_role_fails d id r meta_role :
  meta_role ∉ [Some "pm"; Some "contractor"; Some "admin"] ->
  exists e, insert_users id r meta_role d = (inl e, d).
Proof.
  intros Hout. unfold insert_users. apply atomic_fails.
  unfold mbind at 1 2, stmt_bind at 1 2, get, require.
  case_bool_decide; [| eauto].
  cbn [mret stmt_ret].
  unfold mbind at 1, stmt_bind at 1, modify.
  unfold handle_new_user, insert_profiles.
  destruct (profiles_row_rejected {| profiles.role := meta_role |}
              (with_auth_users (<[id:=r]> (auth_users d)) d) Hout) as [e He].
  exists e. eexists. by apply seq_fails_left.
Qed.

Lemma sign_up_without_valid_role_fails_witness :
  exists e, insert_users "u-fresh" (Sample.user "fresh@example.com") None Sample.database
            = (inl e, Sample.database).
Proof.
  apply (sign_up_without_valid_role_fails Sample.database "u-fresh"
           (Sample.user "fresh@example.com") None).
  intros Hin.
  repeat (apply elem_of_cons in Hin as [Hin | Hin]; [discriminate |]).
  by apply elem_of_nil in Hin.
Defined.

(** ** Consistency is kept *)

(** When every check of a list passes, each of them passed. *)
Lemma for_each_passes {A} (f : A -> stmt ()) l d x :
  (forall y, check_only (f y)) -> for_each f l d = (inr tt, d) -> x ∈ l ->
  f x d = (inr tt, d).
Proof.
  intros Hf Hrun Hin. destruct (Hf x d) as [Hx | Hx]; [done |].
  destruct (for_each_fails f l x d Hf Hin Hx) as [e He]. congruence.
Qed.

(** A value that IN does not reject is one of the constants. *)
Lemma check_in_inside {A} `{EqDecision A} (x : A) (l : list (option A)) :
  Forall is_Some l -> Sql.check_ok (Sql.in_ (Some x) l) = true -> Some x ∈ l.
Proof.
  intros Hall Hok. destruct (decide (Some x ∈ l)) as [Hin | Hout]; [done |].
  by rewrite (in_outside x l Hout Hall) in Hok.
Qed.

Lemma require_passes ok e d : require ok e d = (inr tt, d) -> ok = true.
Proof. by destruct ok. Qed.

Lemma seq_passes (m k : stmt ()) d :
  check_only m -> (m;; k) d = (inr tt, d) -> m d = (inr tt, d) /\ k d = (inr tt, d).
Proof.
  intros Hm. unfold mbind, stmt_bind.
  destruct (Hm d) as [-> | [e ->]]; [done | discriminate].
Qed.

Lemma not_null_passes {A} (v : option A) column d :
  not_null v column d = (inr tt, d) -> is_Some v.
Proof.
  unfold not_null. intros Hok%require_passes. by apply bool_decide_eq_true in Hok.
Qed.

(** The rows the constraints let through. *)
Lemma profiles_row_constraints_ok r d :
  profiles_row_constraints r d = (inr tt, d) -> profiles_row_ok r.
Proof.
  unfold profiles_row_constraints. intros Hrun.
  apply seq_passes in Hrun as [Hnn Hcheck]; [| unfold not_null; auto with checks].
  apply not_null_passes in Hnn as [x Hx]. apply require_passes in Hcheck.
  unfold profiles_row_ok, profiles_role_check in *. rewrite Hx in *.
  apply check_in_inside; [| done]. repeat constructor; eauto.
Qed.

Lemma contractors_row_constraints_ok r d :
  contractors_row_constraints r d = (inr tt, d) -> contractors_row_ok r.
Proof.
  unfold contractors_row_constraints. intros Hrun.
  apply seq_passes in Hrun as [_ Hrun]; [| auto with checks].
  apply seq_passes in Hrun as [Hname Hcheck]; [| unfold not_null; auto with checks].
  apply not_null_passes in Hname. apply require_passes in Hcheck.
  split; [done |]. unfold contractors_rating_check in Hcheck.
  destruct (contractors.rating r) as [x|]; [| done]. simpl in Hcheck.
  repeat case_bool_decide; simpl in Hcheck; try done; lia.
Qed.

Lemma jobs_row_constraints_ok r d :
  jobs_row_constraints r d = (inr tt, d) -> jobs_row_ok r.
Proof.
  unfold jobs_row_constraints. intros Hrun.
  apply seq_passes in Hrun as [Hunit Hrun]; [| unfold not_null; auto with checks].
  apply seq_passes in Hrun as [Hclient Hrun]; [| unfold not_null; auto with checks].
  apply seq_passes in Hrun as [Haddress Hrun]; [| unfold not_null; auto with checks].
  apply seq_passes in Hrun as [Htype Hrun]; [| unfold not_null; auto with checks].
  apply seq_passes in Hrun as [Hdate Hrun]; [| unfold not_null; auto with checks].
  apply seq_passes in Hrun as [Hstatus' Hrun]; [| unfold not_null; auto with checks].
  apply not_null_passes in Hunit, Hclient, Haddress, Htype, Hdate, Hstatus'.
  apply require_passes in Hrun.
  unfold jobs_row_ok. repeat (split; [done |]).
  destruct Hstatus' as [x Hstatus].
  unfold jobs_status_check in Hrun. rewrite Hstatus in *.
  apply check_in_inside; [| done]. repeat constructor; eauto.
Qed.

(** [contractors_user_id_key] is the uniqueness of the link. *)
Lemma omap_unique {A B} (f : A -> option B) (l : list A) x y u :
  NoDup l -> NoDup (omap f l) -> x ∈ l -> y ∈ l ->
  f x = Some u -> f y = Some u -> x = y.
Proof.
  intros Hl Hd. induction l as [|a l IH]; [by intros ?%elem_of_nil |].
  apply NoDup_cons in Hl as [Ha Hl].
  intros Hx Hy Hfx Hfy. simpl in Hd.
  apply elem_of_cons in Hx as [-> | Hx]; apply elem_of_cons in Hy as [-> | Hy];
    try done.
  - rewrite Hfx in Hd. apply NoDup_cons in Hd as [Hu _].
    destruct Hu. apply list_elem_of_omap. eauto.
  - rewrite Hfy in Hd. apply NoDup_cons in Hd as [Hu _].
    destruct Hu. apply list_elem_of_omap. eauto.
  - apply IH; try done. destruct (f a); [by apply NoDup_cons in Hd as [_ ?] | done].
Qed.

Lemma contractors_user_id_key_unique (t : gmap Z contractors.row) k1 k2 c1 c2 u :
  contractors_user_id_key t = true ->
  t !! k1 = Some c1 -> t !! k2 = Some c2 ->
  contractors.user_id c1 = Some u -> contractors.user_id c2 = Some u -> k1 = k2.
Proof.
  unfold contractors_user_id_key. intros Hkey%bool_decide_eq_true H1 H2 Hu1 Hu2.
  assert (Heq : (k1, c1) = (k2, c2)); [| congruence].
  apply (omap_unique (fun kr => contractors.user_id kr.2) (map_to_list t) _ _ u);
    try done; try by apply elem_of_map_to_list.
  apply NoDup_map_to_list.
Qed.

(** Replacing one table keeps consistency when the new rows satisfy what
    the declarations of that table ask for. *)
Lemma consistent_with_profiles d ps :
  consistent d ->
  (forall k p, ps !! k = Some p -> is_Some (auth_users d !! k) /\ profiles_row_ok p) ->
  consistent (with_profiles ps d).
Proof.
  intros [] Hps. constructor; simpl; try done.
  - intros k p Hk. by apply (Hps k p).
  - intros k p Hk. by apply (Hps k p).
Qed.

Lemma consistent_with_contractors d cs :
  consistent d ->
  (forall k c, cs !! k = Some c ->
     contractors_row_ok c /\ k < contractors_id_seq d /\
     forall u, contractors.user_id c = Some u -> is_Some (auth_users d !! u)) ->
  (forall k1 k2 c1 c2 u, cs !! k1 = Some c1 -> cs !! k2 = Some c2 ->
     contractors.user_id c1 = Some u -> contractors.user_id c2 = Some u -> k1 = k2) ->
  (forall k, is_Some (tbl_contractors d !! k) -> is_Some (cs !! k)) ->
  consistent (with_contractors cs d).
Proof.
  intros [] Hcs Hunique Hkeys. constructor; simpl; try done.
  - intros k c u Hk. by apply (Hcs k c).
  - intros k c Hk. by apply (Hcs k c).
  - intros k j c Hk Hc. apply Hkeys. eauto.
  - intros k [c Hk]. by apply (Hcs k c).
Qed.

Lemma consistent_with_jobs d js :
  consistent d ->
  (forall k j, js !! k = Some j ->
     jobs_row_ok j /\ k < jobs_id_seq d /\
     forall c, jobs.contractor_id j = Some c -> is_Some (tbl_contractors d !! c)) ->
  consistent (with_jobs js d).
Proof.
  intros [] Hjs. constructor; simpl; try done.
  - intros k j c Hk. by apply (Hjs k j).
  - intros k j Hk. by apply (Hjs k j).
  - intros k [j Hk]. by apply (Hjs k j).
Qed.

Lemma consistent_nextval_contractors d :
  consistent d -> consistent (nextval_contractors d).2.
Proof.
  intros []. constructor; simpl; try done.
  intros k Hk. specialize (contractors_below_seq0 k Hk). lia.
Qed.

Lemma consistent_nextval_jobs d :
  consistent d -> consistent (nextval_jobs d).2.
Proof.
  intros []. constructor; simpl; try done.
  intros k Hk. specialize (jobs_below_seq0 k Hk). lia.
Qed.

Lemma remaining_subset {K V} `{Countable K} (where_ : K -> V -> Sql.tv)
    (t : gmap K V) k r :
  remaining where_ t !! k = Some r -> t !! k = Some r.
Proof. by intros [? _]%remaining_lookup. Qed.

(** A row is either removed by a DELETE or left in place. *)
Lemma qualifying_or_remaining {K V} `{Countable K} (where_ : K -> V -> Sql.tv)
    (t : gmap K V) k r :
  t !! k = Some r ->
  qualifying where_ t !! k = Some r \/ remaining where_ t !! k = Some r.
Proof.
  intros Hk. destruct (Sql.qual (where_ k r)) eqn:Hq.
  - left. by apply qualifying_lookup.
  - right. by apply remaining_lookup.
Qed.

Lemma qualifying_not_remaining {K V} `{Countable K} (where_ : K -> V -> Sql.tv)
    (t : gmap K V) k :
  qualifying where_ t !! k = None -> remaining where_ t !! k = t !! k.
Proof.
  intros Hgone. destruct (t !! k) as [r|] eqn:Hk.
  - destruct (qualifying_or_remaining where_ t k r Hk); congruence.
  - apply eq_None_not_Some. intros [r Hr]. apply remaining_subset in Hr. congruence.
Qed.

Lemma contractors_on_delete_users_inv gone c c' :
  contractors_on_delete_users gone c = c' ->
  contractors_row_ok c -> 
  contractors_row_ok c' /\
  forall u, contractors.user_id c' = Some u ->
            contractors.user_id c = Some u /\ gone !! u = None.
Proof.
  unfold contractors_on_delete_users. intros <- Hok.
  destruct (contractors.user_id c) as [u0|] eqn:Hlink; [| by rewrite Hlink].
  case_bool_decide as Hgone.
  - split; [done |]. intros u. simpl. done.
  - split; [done |]. intros u. rewrite Hlink. intros [= <-]. split; [done |].
    by apply eq_None_not_Some.
Qed.

Lemma jobs_on_delete_contractors_inv gone j j' :
  jobs_on_delete_contractors gone j = j' ->
  jobs_row_ok j ->
  jobs_row_ok j' /\
  forall c, jobs.contractor_id j' = Some c ->
            jobs.contractor_id j = Some c /\ gone !! c = None.
Proof.
  unfold jobs_on_delete_contractors. intros <- Hok.
  destruct (jobs.contractor_id j) as [c0|] eqn:Hlink; [| by rewrite Hlink].
  case_bool_decide as Hgone.
  - split; [done |]. intros c. simpl. done.
  - split; [done |]. intros c. rewrite Hlink. intros [= <-]. split; [done |].
    by apply eq_None_not_Some.
Qed.

Lemma delete_users_consistent d where_ :
  consistent d -> consistent (delete_users where_ d).2.
Proof.
  intros []. unfold delete_users, modify. cbn [snd].
  set (gone := qualifying where_ (auth_users d)).
  assert (Hleft : forall u, is_Some (auth_users d !! u) -> gone !! u = None ->
                            is_Some (remaining where_ (auth_users d) !! u)).
  { intros u Hu Hgone. by rewrite qualifying_not_remaining. }
  assert (Hc : forall k c', (contractors_on_delete_users gone <$> tbl_contractors d) !! k
                             = Some c' ->
            exists c, tbl_contractors d !! k = Some c /\
                      contractors_on_delete_users gone c = c').
  { intros k c'. rewrite lookup_fmap. destruct (tbl_contractors d !! k) as [c|]; [|done].
    intros [= <-]. eauto. }
  constructor; cbn [auth_users tbl_profiles tbl_contractors tbl_jobs
                    contractors_id_seq jobs_id_seq]; try done.
  - intros k p Hk. rewrite map_lookup_filter_Some in Hk. destruct Hk as [Hk Hgone].
    apply Hleft; eauto.
  - intros k p Hk. rewrite map_lookup_filter_Some in Hk. destruct Hk as [Hk _]. eauto.
  - intros k c' u (c & Hk & Hc')%Hc Hu.
    destruct (contractors_on_delete_users_inv gone c c' Hc' (contractors_rows0 k c Hk))
      as [_ Hlink].
    destruct (Hlink u Hu) as [Hu' Hgone]. apply Hleft; eauto.
  - intros k c' (c & Hk & Hc')%Hc.
    by destruct (contractors_on_delete_users_inv gone c c' Hc' (contractors_rows0 k c Hk)).
  - intros k1 k2 c1' c2' u (c1 & Hk1 & Hc1)%Hc (c2 & Hk2 & Hc2)%Hc Hu1 Hu2.
    destruct (contractors_on_delete_users_inv gone c1 c1' Hc1 (contractors_rows0 k1 c1 Hk1))
      as [_ Hlink1].
    destruct (contractors_on_delete_users_inv gone c2 c2' Hc2 (contractors_rows0 k2 c2 Hk2))
      as [_ Hlink2].
    destruct (Hlink1 u Hu1) as [? _]. destruct (Hlink2 u Hu2) as [? _]. eauto.
  - intros k j c Hk Hj. rewrite lookup_fmap.
    destruct (jobs_fk0 k j c Hk Hj) as [c0 ->]. by eexists.
  - intros k [c' (c & Hk & _)%Hc]. eauto.
Qed.

Lemma delete_contractors_consistent d where_ :
  consistent d -> consistent (delete_contractors where_ d).2.
Proof.
  intros []. unfold delete_contractors, modify. cbn [snd].
  set (gone := qualifying where_ (tbl_contractors d)).
  assert (Hj : forall k j', (jobs_on_delete_contractors gone <$> tbl_jobs d) !! k = Some j' ->
            exists j, tbl_jobs d !! k = Some j /\ jobs_on_delete_contractors gone j = j').
  { intros k j'. rewrite lookup_fmap. destruct (tbl_jobs d !! k) as [j|]; [|done].
    intros [= <-]. eauto. }
  constructor; cbn [with_jobs with_contractors auth_users tbl_profiles tbl_contractors
                    tbl_jobs contractors_id_seq jobs_id_seq]; try done.
  - intros k c u Hk%remaining_subset. eauto.
  - intros k c Hk%remaining_subset. eauto.
  - intros k1 k2 c1 c2 u Hk1%remaining_subset Hk2%remaining_subset. eauto.
  - intros k j' c (j & Hk & Hj')%Hj Hc.
    destruct (jobs_on_delete_contractors_inv gone j j' Hj' (jobs_rows0 k j Hk)) as [_ Hlink].
    destruct (Hlink c Hc) as [Hc' Hgone].
    rewrite (qualifying_not_remaining where_ (tbl_contractors d) c Hgone). eauto.
  - intros k j' (j & Hk & Hj')%Hj.
    by destruct (jobs_on_delete_contractors_inv gone j j' Hj' (jobs_rows0 k j Hk)).
  - intros k [c Hk%remaining_subset]. eauto.
  - intros k [j' (j & Hk & _)%Hj]. eauto.
Qed.

Lemma delete_profiles_consistent d where_ :
  consistent d -> consistent (delete_profiles where_ d).2.
Proof.
  intros Hd. unfold delete_profiles, modify. cbn [snd].
  apply consistent_with_profiles; [done |].
  intros k p Hk%remaining_subset. destruct Hd. eauto.
Qed.

Lemma delete_jobs_consistent d where_ :
  consistent d -> consistent (delete_jobs where_ d).2.
Proof.
  intros Hd. unfold delete_jobs, modify. cbn [snd].
  apply consistent_with_jobs; [done |].
  intros k j Hk%remaining_subset. destruct Hd. eauto 10.
Qed.

Lemma delete_user_consistent d who user_id :
  consistent d -> consistent (delete_user who user_id d).2.
Proof.
  intros Hd. unfold delete_user, mbind, stmt_bind, get, require.
  destruct (caller_is_admin d who); [| done].
  by apply delete_users_consistent.
Qed.

(** X12. No DELETE leaves a dangling reference. On a consistent database,
    deleting identities (by statement or through [delete_user], whoever
    calls it), contractors, profiles or jobs, whatever the WHERE clause,
    gives a consistent database: the
    cascade on [profiles.id] and the SET NULL on [contractors.user_id]
    and [jobs.contractor_id] repair every reference to a deleted row. *)
Theorem deletes_keep_consistency d :
  consistent d ->
  (forall where_, consistent (delete_users where_ d).2) /\
  (forall who user_id, consistent (delete_user who user_id d).2) /\
  (forall where_, consistent (delete_contractors where_ d).2) /\
  (forall where_, consistent (delete_profiles where_ d).2) /\
  (forall where_, consistent (delete_jobs where_ d).2).
Proof.
  intros Hd.
  split; [intros; by apply delete_users_consistent |].
  split; [intros; by apply delete_user_consistent |].
  split; [intros; by apply delete_contractors_consistent |].
  split.
  - intros. by apply delete_profiles_consistent.
  - intros. by apply delete_jobs_consistent.
Qed.

(** The rows of a table written out. *)
Ltac table_rows H :=
  apply elem_of_map_to_list in H; vm_compute in H;
  repeat (apply elem_of_cons in H as [H | H]; [injection H as -> -> |]);
  [.. | by apply elem_of_nil in H].

Ltac one_of_the_constants :=
  repeat first [apply list_elem_of_here | apply list_elem_of_further].

Lemma sample_database_consistent : consistent Sample.database.
Proof.
  constructor.
  - intros k p Hk. table_rows Hk; vm_compute; eauto.
  - intros k p Hk. unfold profiles_row_ok. table_rows Hk; simpl; one_of_the_constants.
  - intros k c u Hk Hu.
    table_rows Hk; simpl in Hu; try discriminate; injection Hu as <-; vm_compute; eauto.
  - intros k c Hk. unfold contractors_row_ok. table_rows Hk; simpl; split; eauto; lia.
  - intros k1 k2 c1 c2 u. apply contractors_user_id_key_unique. by vm_compute.
  - intros k j c Hk Hc.
    table_rows Hk; simpl in Hc; try discriminate; injection Hc as <-; vm_compute; eauto.
  - intros k j Hk. unfold jobs_row_ok.
    table_rows Hk; simpl; repeat (split; [eauto |]); one_of_the_constants.
  - intros k [c Hk]. table_rows Hk; reflexivity.
  - intros k [j Hk]. table_rows Hk; reflexivity.
Qed.

Lemma deletes_keep_consistency_witness :
  consistent (delete_user (authenticated "u-admin") (Some "u-mike") Sample.database).2 /\
  consistent (delete_contractors (fun id _ => Sql.eq (Some id) (Some 2))
                                 Sample.database).2.
Proof.
  destruct (deletes_keep_consistency Sample.database sample_database_consistent)
    as (_ & Huser & Hcontractors & _).
  split; [apply Huser | apply Hcontractors].
Defined.

Lemma references_is_Some {K V} `{Countable K} (v : option K) (t : gmap K V) k :
  references v t = true -> v = Some k -> is_Some (t !! k).
Proof. intros Href ->. simpl in Href. by apply bool_decide_eq_true in Href. Qed.

Lemma insert_profiles_consistent d id r :
  consistent d -> consistent (insert_profiles id r d).2.
Proof.
  intros Hd. unfold insert_profiles. destruct id as [k|]; [| done].
  unfold mbind at 1, stmt_bind at 1.
  destruct (check_only_profiles_row r d) as [Hrow | [e Hrow]]; rewrite Hrow; [| done].
  unfold mbind, stmt_bind, get, require, modify.
  case_bool_decide as Hfresh; [| done].
  destruct (references (Some k) (auth_users d)) eqn:Href; [| done].
  cbn [snd]. apply consistent_with_profiles; [done |].
  intros k' p [[<- <-] | [_ Hk]]%lookup_insert_Some.
  - split; [by apply (references_is_Some _ _ _ Href) |].
    by apply (profiles_row_constraints_ok r d).
  - destruct Hd. eauto.
Qed.

Lemma insert_contractors_consistent d r :
  consistent d -> consistent (insert_contractors r d).2.
Proof.
  intros Hd. unfold insert_contractors.
  unfold mbind at 1, stmt_bind at 1.
  pose proof (consistent_nextval_contractors d Hd) as Hd1.
  unfold nextval_contractors in *. cbn [fst snd] in *.
  set (d1 := {| auth_users := auth_users d; tbl_profiles := tbl_profiles d;
                tbl_contractors := tbl_contractors d; tbl_jobs := tbl_jobs d;
                contractors_id_seq := contractors_id_seq d + 1;
                jobs_id_seq := jobs_id_seq d |}) in *.
  unfold mbind at 1, stmt_bind at 1.
  destruct (check_only_contractors_row r d1) as [Hrow | [e Hrow]]; rewrite Hrow; [| done].
  unfold mbind, stmt_bind, get, require, modify.
  case_bool_decide as Hfresh; [| done].
  destruct (contractors_user_id_key _) eqn:Hkey; [| done].
  destruct (references (contractors.user_id r) (auth_users d1)) eqn:Href; [| done].
  cbn [snd fst mret stmt_ret]. apply consistent_with_contractors; [done | | |].
  - intros k c [[<- <-] | [_ Hk]]%lookup_insert_Some.
    + split; [by apply (contractors_row_constraints_ok r d1) |].
      split; [simpl; lia |]. intros u Hu. by apply (references_is_Some _ _ _ Href).
    + destruct Hd1. split; [eauto | split; eauto].
  - intros k1 k2 c1 c2 u. by apply contractors_user_id_key_unique.
  - intros k Hk. apply lookup_insert_is_Some'. by right.
Qed.

Lemma insert_jobs_consistent d r :
  consistent d -> consistent (insert_jobs r d).2.
Proof.
  intros Hd. unfold insert_jobs.
  unfold mbind at 1, stmt_bind at 1.
  pose proof (consistent_nextval_jobs d Hd) as Hd1.
  unfold nextval_jobs in *. cbn [fst snd] in *.
  set (d1 := {| auth_users := auth_users d; tbl_profiles := tbl_profiles d;
                tbl_contractors := tbl_contractors d; tbl_jobs := tbl_jobs d;
                contractors_id_seq := contractors_id_seq d;
                jobs_id_seq := jobs_id_seq d + 1 |}) in *.
  unfold mbind at 1, stmt_bind at 1.
  destruct (check_only_jobs_row r d1) as [Hrow | [e Hrow]]; rewrite Hrow; [| done].
  unfold mbind, stmt_bind, get, require, modify.
  case_bool_decide as Hfresh; [| done].
  destruct (references (jobs.contractor_id r) (tbl_contractors d1)) eqn:Href; [| done].
  cbn [snd fst mret stmt_ret]. apply consistent_with_jobs; [done |].
  intros k j [[<- <-] | [_ Hk]]%lookup_insert_Some.
  - split; [by apply (jobs_row_constraints_ok r d1) |].
    split; [simpl; lia |]. intros c Hc. by apply (references_is_Some _ _ _ Href).
  - destruct Hd1. split; [eauto | split; eauto].
Qed.

Lemma insert_users_consistent d id r meta_role :
  consistent d -> consistent (insert_users id r meta_role d).2.
Proof.
  intros Hd. unfold insert_users, atomic.
  match goal with |- consistent (match ?m with _ => _ end).2 =>
    destruct m as [[e | []] d'] eqn:Hrun end; [done |].
  cbn [snd].
  revert Hrun. unfold mbind at 1 2, stmt_bind at 1 2, get, require.
  case_bool_decide as Hfresh; [| done]. cbn [mret stmt_ret].
  unfold mbind at 1, stmt_bind at 1, modify, handle_new_user.
  intros Hrun.
  assert (Hd2 : consistent (with_auth_users (<[id:=r]> (auth_users d)) d)).
  { destruct Hd. constructor; simpl; try done.
    - intros k p Hk. apply lookup_insert_is_Some'. eauto.
    - intros k c u Hk Hu. apply lookup_insert_is_Some'. eauto. }
  pose proof (insert_profiles_consistent _ (Some id) {| profiles.role := meta_role |} Hd2)
    as Hd'.
  by rewrite Hrun in Hd'.
Qed.

(** X13. Whatever row is offered, on a consistent database an INSERT into
    [profiles], [contractors] or [jobs], and the creation of an identity
    with its trigger, give a consistent database, whether they succeed or
    fail: a row is stored only if it passes the constraints and refers to
    rows that exist. *)
Theorem inserts_keep_consistency d :
  consistent d ->
  (forall id r, consistent (insert_profiles id r d).2) /\
  (forall r, consistent (insert_contractors r d).2) /\
  (forall r, consistent (insert_jobs r d).2) /\
  (forall id r meta_role, consistent (insert_users id r meta_role d).2).
Proof.
  intros Hd.
  split; [intros; by apply insert_profiles_consistent |].
  split; [intros; by apply insert_contractors_consistent |].
  split; [intros; by apply insert_jobs_consistent |].
  intros; by apply insert_users_consistent.
Qed.

Lemma inserts_keep_consistency_witness :
  consistent (insert_jobs (Sample.job "D4" (Some 3) "Pending") Sample.database).2 /\
  consistent (insert_users "u-fresh" (Sample.user "fresh@example.com") (Some "pm")
                           Sample.database).2.
Proof.
  destruct (inserts_keep_consistency Sample.database sample_database_consistent)
    as (_ & _ & Hjobs & Husers).
  split; [apply Hjobs | apply Husers].
Defined.


Lemma bind_passes {A B} (m : stmt A) (k : A -> stmt B) d a d' :
  m d = (inr a, d') -> (m ≫= k) d = k a d'.
Proof. intros Hm. unfold mbind, stmt_bind. by rewrite Hm. Qed.







(** What the row-level checks of [update_jobs_as] amount to. *)
Lemma update_jobs_as_run d who where_ set :
  let target := fun id r =>
    Sql.and (where_ id r)
            (Some (can_select jobs_policies d who id r
                   && can_update_row jobs_policies d who id r)) in
  (exists e, update_jobs_as who where_ set d = (inl e, d)) \/
  (update_jobs_as who where_ set d = update_jobs target set d /\
   forall k r, tbl_jobs d !! k = Some r -> Sql.qual (target k r) = true ->
               grants_new jobs_policies UPDATE d who k (set r) = true).
Proof.
  intros target. unfold update_jobs_as. rewrite (bind_passes get _ d d d eq_refl).
  fold target.
  match goal with |- context [for_each ?f ?l] =>
    assert (Hf : forall y, check_only (f y));
    [| destruct (check_only_for_each f l Hf d) as [Hrun | [e Hrun]]] end.
  - intros [k r]. cbn [fst snd].
    match goal with |- check_only (if ?b then _ else _) => destruct b end;
      [apply check_only_require | apply check_only_ret].
  - right. rewrite (bind_passes _ _ d tt d Hrun). split; [done |].
    intros k r Hk Hq.
    pose proof (for_each_passes _ _ d (k, r) Hf Hrun
                  ltac:(by apply elem_of_map_to_list)) as Hrow.
    cbn [fst snd] in Hrow. unfold target in Hq. rewrite Hq in Hrow.
    apply require_passes, andb_true_iff in Hrow as [Hrow _]. done.
  - left. exists e. by apply seq_fails_left.
Qed.



(** ** Updates of jobs under row-level security *)










(** * Further properties of the state controller *)

Lemma state_eta (s : App.state) :
  {| App.jobs := App.jobs s; App.contractors := App.contractors s |} = s.
Proof. by destruct s. Qed.

(** X17. The optimistic step of [handleUpdateJobStatus] changes nothing
    but the status of the jobs with the given id: the list keeps its
    length and order, jobs with another id are untouched, a job with that
    id keeps its id, its contractor and every other column, and the
    contractor list is untouched. *)
Theorem status_update_touches_only_status (s : App.state) (jobId : Z)
    (status : App.Status) :
  let s' := (App.before_await (App.handleUpdateJobStatus jobId status) s).1 in
  App.contractors s' = App.contractors s /\
  length (App.jobs s') = length (App.jobs s) /\
  App.Job.id <$> App.jobs s' = App.Job.id <$> App.jobs s /\
  forall (i : nat) job, App.jobs s !! i = Some job ->
    (App.Job.id job <> jobId -> App.jobs s' !! i = Some job) /\
    (App.Job.id job = jobId ->
     App.jobs s' !! i = Some (App.with_status status job) /\
     App.with_status (App.Job.status job) (App.with_status status job) = job).
Proof.
  simpl. split; [done |]. split; [by rewrite length_fmap |]. split.
  - rewrite <-list_fmap_compose. apply list_fmap_ext. intros i job _. simpl.
    by destruct (App.Job.id job =? jobId).
  - intros i job Hjob. rewrite list_lookup_fmap, Hjob. simpl. split.
    + intros Hne. by rewrite (proj2 (Z.eqb_neq _ _) Hne).
    + intros Heq. rewrite (proj2 (Z.eqb_eq _ _) Heq). split; [done |]. by destruct job.
Qed.

(** X18. The optimistic step of [handleAssignJob] does not look at the
    status of the job: whatever it was, [Completed] included, a job with
    the given id becomes [In Progress] under the contractor that was
    found, and the result is the same as if the job had been completed
    before; jobs with another id and the order of the list are
    untouched. *)
Theorem assign_overrides_any_status (s : App.state) (jobId contractorId : Z)
    (c : App.Contractor.t) :
  List.find (fun c => App.Contractor.id c =? contractorId) (App.contractors s) = Some c ->
  let s' := (App.before_await
               (App.handleAssignJob (App.contractors s) jobId contractorId) s).1 in
  App.contractors s' = App.contractors s /\
  App.Job.id <$> App.jobs s' = App.Job.id <$> App.jobs s /\
  forall (i : nat) job, App.jobs s !! i = Some job ->
    (App.Job.id job <> jobId -> App.jobs s' !! i = Some job) /\
    (App.Job.id job = jobId ->
     App.jobs s' !! i =
       Some (App.assigned contractorId (App.Contractor.name c) job) /\
     App.Job.status (App.assigned contractorId (App.Contractor.name c) job)
       = App.InProgress /\
     App.assigned contractorId (App.Contractor.name c) job =
       App.assigned contractorId (App.Contractor.name c)
         (App.with_status App.Completed job)).
Proof.
  intros Hfind. unfold App.handleAssignJob. rewrite Hfind. simpl.
  split; [done |]. split.
  - rewrite <-list_fmap_compose. apply list_fmap_ext. intros i job _. simpl.
    by destruct (App.Job.id job =? jobId).
  - intros i job Hjob. rewrite list_lookup_fmap, Hjob. simpl. split.
    + intros Hne. by rewrite (proj2 (Z.eqb_neq _ _) Hne).
    + intros Heq. by rewrite (proj2 (Z.eqb_eq _ _) Heq).
Qed.

Lemma assign_overrides_any_status_witness :
  let done_job := App.with_status App.Completed (App.sample_job 7 "A1") in
  let s := {| App.jobs := [done_job];
              App.contractors := App.contractors App.sample_state |} in
  App.jobs (App.before_await (App.handleAssignJob (App.contractors s) 7 2) s).1 !! 0%nat
  = Some (App.assigned 2 "Cleaning Crew Co." done_job).
Proof.
  intros done_job s.
  destruct (assign_overrides_any_status s 7 2
              (App.sample_contractor 2 "Cleaning Crew Co.") eq_refl)
    as (_ & _ & Hjobs).
  destruct (Hjobs 0%nat done_job eq_refl) as [_ Hsame].
  destruct (Hsame eq_refl) as (Hjob & _).
  exact Hjob.
Defined.

(** X19. When the update request succeeds, either handler is done after
    that one request: nothing is printed, no job query follows, and the
    state it ends with is the optimistic one. *)
Theorem accepted_mutation_keeps_optimistic_state (srv : App.backend) n s jobId :
  (forall contractorId c,
     List.find (fun c => App.Contractor.id c =? contractorId) (App.contractors s) = Some c ->
     let update := App.from_jobs_update
                     {| App.patch_contractor_id := Some contractorId;
                        App.patch_status := Some App.InProgress |} jobId in
     let task := App.handleAssignJob (App.contractors s) jobId contractorId in
     App.error (srv _ n update) = None ->
     App.run srv task n s = ((App.before_await task s).1, [App.issued update])) /\
  (forall status,
     let update := App.from_jobs_update
                     {| App.patch_contractor_id := None;
                        App.patch_status := Some status |} jobId in
     let task := App.handleUpdateJobStatus jobId status in
     App.error (srv _ n update) = None ->
     App.run srv task n s = ((App.before_await task s).1, [App.issued update])).
Proof.
  split.
  - intros contractorId c Hfind update task Hok. unfold task, App.handleAssignJob.
    rewrite Hfind. cbn [App.run App.before_await fst snd]. fold update.
    by rewrite Hok.
  - intros status update task Hok. unfold task, App.handleUpdateJobStatus.
    cbn [App.run App.before_await fst snd]. fold update. by rewrite Hok.
Qed.

(** A backend that accepts every request and has no rows. *)
Lemma accepted_mutation_keeps_optimistic_state_witness :
  let srv : App.backend := fun R _ q =>
    match q in App.request T return T with
    | App.from_jobs_select => {| App.data := Some []; App.error := None |}
    | App.from_contractors_select => {| App.data := Some []; App.error := None |}
    | App.from_jobs_update _ _ => {| App.data := None; App.error := None |}
    end in
  (App.run srv (App.handleUpdateJobStatus 7 App.Completed) 0 App.sample_state).2 =
  [App.issued (App.from_jobs_update {| App.patch_contractor_id := None;
                                       App.patch_status := Some App.Completed |} 7)].
Proof.
  intros srv.
  destruct (accepted_mutation_keeps_optimistic_state srv 0 App.sample_state 7)
    as [_ Hstatus].
  by rewrite (Hstatus App.Completed eq_refl).
Defined.

Lemma status_update_touches_only_status_witness :
  App.jobs (App.before_await (App.handleUpdateJobStatus 8 App.Completed)
                             App.sample_state).1 !! 0%nat
  = Some (App.sample_job 7 "A1").
Proof.
  destruct (status_update_touches_only_status App.sample_state 8 App.Completed)
    as (_ & _ & _ & Hjobs).
  destruct (Hjobs 0%nat (App.sample_job 7 "A1") eq_refl) as [Hother _].
  apply Hother. discriminate.
Defined.

Lemma processJob_keeps_columns (row : App.fetched_job) :
  App.with_contractor_name (App.Job.contractor_name (App.columns row))
                           (App.processJob row) = App.columns row.
Proof.
  unfold App.processJob. destruct row as [job member]. simpl.
  destruct member as [l | name |]; by destruct job.
Qed.

(** X20. A job query that returns rows replaces the job list by one job
    per row, in the order of the rows; each job has the columns of its
    row, with [contractor_name] taken from the embedded contractor when
    there is one and left as it came when there is none. A contractor
    query that returns rows replaces the contractor list by them. An
    answer that carries neither rows nor an error leaves the state as it
    was. *)
Theorem fetch_replaces_list_by_rows (srv : App.backend) n s :
  (forall rows,
     srv _ n App.from_jobs_select = {| App.data := Some rows; App.error := None |} ->
     let r := App.run srv App.fetchJobs n s in
     r.2 = [App.issued App.from_jobs_select] /\
     App.contractors r.1 = App.contractors s /\
     length (App.jobs r.1) = length rows /\
     forall (i : nat) row, rows !! i = Some row ->
       exists job, App.jobs r.1 !! i = Some job /\
         App.with_contractor_name (App.Job.contractor_name (App.columns row)) job
           = App.columns row /\
         (forall name, App.contractors_member row = App.embedded_object name ->
                       App.Job.contractor_name job = App.value name) /\
         (App.contractors_member row = App.embedded_null -> job = App.columns row)) /\
  (forall rows,
     srv _ n App.from_contractors_select
       = {| App.data := Some rows; App.error := None |} ->
     App.run srv App.fetchContractors n s =
       ({| App.jobs := App.jobs s; App.contractors := rows |},
        [App.issued App.from_contractors_select])) /\
  (srv _ n App.from_jobs_select = {| App.data := None; App.error := None |} ->
   App.run srv App.fetchJobs n s = (s, [App.issued App.from_jobs_select])) /\
  (srv _ n App.from_contractors_select = {| App.data := None; App.error := None |} ->
   App.run srv App.fetchContractors n s = (s, [App.issued App.from_contractors_select])).
Proof.
  split; [| split; [| split]].
  - intros rows Hrows r. unfold r. rewrite run_fetchJobs, Hrows. cbn [fst snd App.error].
    unfold App.fetched_jobs. cbn [App.error App.data App.jobs App.contractors].
    split; [done |]. split; [done |]. split; [by rewrite length_fmap |].
    intros i row Hrow. exists (App.processJob row).
    rewrite list_lookup_fmap, Hrow. split; [done |].
    split; [apply processJob_keeps_columns |]. split.
    + intros name Hmember. unfold App.processJob. by rewrite Hmember.
    + intros Hmember. unfold App.processJob. by rewrite Hmember.
  - intros rows Hrows. simpl. by rewrite Hrows.
  - intros Hnone. simpl. rewrite Hnone. simpl. by destruct s.
  - intros Hnone. simpl. rewrite Hnone. simpl. by destruct s.
Qed.

Lemma fetch_replaces_list_by_rows_witness :
  let rows := [ {| App.columns := App.sample_job 7 "A1";
                   App.contractors_member := App.embedded_object "Sparkle & Shine" |} ] in
  App.Job.contractor_name <$>
    App.jobs (App.run (App.refusing_backend rows) App.fetchJobs 0 App.sample_state).1
  = [App.value "Sparkle & Shine"].
Proof.
  intros rows.
  destruct (fetch_replaces_list_by_rows (App.refusing_backend rows) 0 App.sample_state)
    as (Hjobs & _).
  destruct (Hjobs rows eq_refl) as (_ & _ & Hlen & Hrow).
  destruct (Hrow 0%nat _ eq_refl) as (job & Hjob & _ & Hname & _).
  destruct (App.jobs _) as [|job' [|? ?]]; try discriminate Hlen.
  injection Hjob as ->. simpl. by rewrite (Hname "Sparkle & Shine" eq_refl).
Defined.

(** X21. [handleAssignJob] does not check that the job is in the list:
    for a known contractor and an id that no cached job has, the list
    stays as it is and the update request is sent all the same. *)
Theorem assign_unknown_job_still_sends (s : App.state) (jobId contractorId : Z)
    (c : App.Contractor.t) :
  List.find (fun c => App.Contractor.id c =? contractorId) (App.contractors s) = Some c ->
  (forall job, job ∈ App.jobs s -> App.Job.id job <> jobId) ->
  exists k,
    App.before_await (App.handleAssignJob (App.contractors s) jobId contractorId) s =
    (s, App.await (App.from_jobs_update
                     {| App.patch_contractor_id := Some contractorId;
                        App.patch_status := Some App.InProgress |} jobId) k).
Proof.
  intros Hfind Hunknown. unfold App.handleAssignJob. rewrite Hfind. simpl.
  eexists. f_equal.
  rewrite <-(state_eta s) at 3. f_equal.
  rewrite <-(list_fmap_id (App.jobs s)) at 2.
  apply list_fmap_ext. intros i job Hjob. simpl.
  rewrite (proj2 (Z.eqb_neq _ _)); [done |].
  apply Hunknown. by apply list_elem_of_lookup_2 in Hjob.
Qed.

Lemma assign_unknown_job_still_sends_witness :
  exists k,
    App.before_await (App.handleAssignJob (App.contractors App.sample_state) 99 1)
                     App.sample_state =
    (App.sample_state,
     App.await (App.from_jobs_update
                  {| App.patch_contractor_id := Some 1;
                     App.patch_status := Some App.InProgress |} 99) k).
Proof.
  apply (assign_unknown_job_still_sends App.sample_state 99 1
           (App.sample_contractor 1 "Mike's Maintenance") eq_refl).
  intros job Hin.
  repeat (apply elem_of_cons in Hin as [-> | Hin]; [discriminate |]).
  by apply elem_of_nil in Hin.
Defined.

(** ** Loading, signing out and the role *)

(** X22. [loadData] gives the same state whichever of its two answers
    arrives first. It ends with [loading] false whether the queries
    succeed or fail, with the job list that [fetchJobs] makes of the first
    answer and the contractor list that [fetchContractors] makes of the
    second, and leaves the session, the role and the tab alone. *)
Theorem loadData_does_not_depend_on_arrival (srv : App.backend) n (s : Shell.state) :
  let answer_jobs := srv _ n App.from_jobs_select in
  let loaded := Shell.loadData srv n true s in
  Shell.loadData srv n false s = loaded /\
  Shell.loading loaded = false /\
  Shell.session loaded = Shell.session s /\
  Shell.userRole loaded = Shell.userRole s /\
  Shell.activeTab loaded = Shell.activeTab s /\
  App.jobs (Shell.cache loaded) =
    App.fetched_jobs answer_jobs (App.jobs (Shell.cache s)) /\
  App.contractors (Shell.cache loaded) =
    App.contractors (App.run srv App.fetchContractors (S n) (Shell.cache s)).1.
Proof.
  intros answer_jobs loaded. unfold loaded, Shell.loadData, Shell.resume.
  cbn [App.before_await App.fetchJobs App.fetchContractors fst snd
       Shell.setLoading Shell.cache Shell.setCache Shell.loading Shell.session
       Shell.userRole Shell.activeTab App.run].
  fold answer_jobs. unfold App.fetched_jobs.
  destruct (App.error answer_jobs) as [e|], (App.data answer_jobs) as [rows|],
           (App.error (srv _ (S n) App.from_contractors_select)) as [e'|],
           (App.data (srv _ (S n) App.from_contractors_select)) as [rows'|];
    repeat split.
Qed.

(** X23. [handleSignOut] clears the session, the role and both lists
    whatever the sign-out request answered, a failure included, and
    touches nothing else. In the state it leaves, the role effect asks
    for no profile and the load effect sends no query. *)
Theorem sign_out_clears_everything (answer : option App.PostgrestError)
    (s : Shell.state) :
  let s' := (Shell.handleSignOut answer s).1 in
  Shell.session s' = None /\ Shell.userRole s' = None /\
  App.jobs (Shell.cache s') = [] /\ App.contractors (Shell.cache s') = [] /\
  Shell.loading s' = Shell.loading s /\ Shell.activeTab s' = Shell.activeTab s /\
  (forall profile, Shell.fetchUserRole profile s' = (s', [])) /\
  (forall srv n jobs_first,
     Shell.load_effect srv n jobs_first s' = Shell.setLoading false s').
Proof. repeat split. Qed.

(** X24. Data is loaded only for a session whose role is known. Without
    a session, or when the profile query fails, [fetchUserRole] leaves no
    role and the load effect that follows sends nothing and only ends the
    loading state. When the query returns a non-empty role for the
    identity of the session, that role is stored and the load effect
    loads. *)
Theorem data_is_loaded_only_with_a_role (profile : uuid -> App.response string)
    (srv : App.backend) n jobs_first (s : Shell.state) :
  let s1 := (Shell.fetchUserRole profile s).1 in
  (Shell.session s = None \/
   (exists sess e, Shell.session s = Some sess /\
                   App.error (profile (Shell.user_id sess)) = Some e) ->
   Shell.userRole s1 = None /\
   Shell.load_effect srv n jobs_first s1 = Shell.setLoading false s1) /\
  (forall sess role,
     Shell.session s = Some sess ->
     profile (Shell.user_id sess) = {| App.data := Some role; App.error := None |} ->
     role <> "" ->
     Shell.userRole s1 = Some role /\
     (Shell.fetchUserRole profile s).2 =
       [Shell.profiles_role_requested (Shell.user_id sess)] /\
     Shell.load_effect srv n jobs_first s1 = Shell.loadData srv n jobs_first s1).
Proof.
  split.
  - intros [Hnone | (sess & e & Hsess & Herr)]; unfold Shell.fetchUserRole.
    + rewrite Hnone. split; [done |]. unfold Shell.load_effect. simpl.
      by rewrite andb_false_r.
    + rewrite Hsess, Herr. split; [done |]. unfold Shell.load_effect. simpl.
      by rewrite andb_false_r.
  - intros sess role Hsess Hrole Hne. unfold Shell.fetchUserRole.
    rewrite Hsess, Hrole. cbn [App.error App.data fst snd].
    split; [done |]. split; [done |].
    unfold Shell.load_effect. cbn [Shell.session Shell.userRole Shell.setUserRole].
    rewrite Hsess. rewrite bool_decide_eq_true_2 by eauto. simpl.
    by rewrite bool_decide_eq_false_2.
Qed.

Lemma data_is_loaded_only_with_a_role_witness :
  let s := Shell.setSession (Some {| Shell.user_id := "u-mike";
                                     Shell.user_email := Some "mike@example.com" |})
                            Shell.initial in
  let profile := fun _ : uuid => {| App.data := Some "contractor"; App.error := None |} in
  Shell.userRole (Shell.fetchUserRole profile s).1 = Some "contractor" /\
  Shell.loading
    (Shell.load_effect App.failing_backend 0 true (Shell.fetchUserRole profile s).1)
  = false.
Proof.
  intros s profile.
  destruct (data_is_loaded_only_with_a_role profile App.failing_backend 0 true s)
    as [_ Hrole].
  destruct (Hrole {| Shell.user_id := "u-mike";
                     Shell.user_email := Some "mike@example.com" |} "contractor"
                  eq_refl eq_refl ltac:(discriminate)) as (Hstored & _ & Hload).
  split; [exact Hstored |]. rewrite Hload. reflexivity.
Defined.
